(** * Verification of the viem-hw core: derivation paths, signature
    normalisation, error classification, the Ledger connection state machine
    and the RLP encoder used for Ledger transaction serialisation.

    JavaScript strings are modelled as [string] (ASCII), JavaScript numbers
    and bigints that are integral as [Z].  Functions that can throw return
    [option] (or a dedicated outcome type) with [None] standing for the
    thrown exception. *)

From Stdlib Require Import ZArith Lia Bool List Ascii String.
Import ListNotations.
Open Scope string_scope.
Open Scope Z_scope.
Set Warnings "-register-all".

(* ------------------------------------------------------------------ *)
(** ** JavaScript string primitives *)

Module Js.

(** [String.prototype.startsWith] *)
Fixpoint startsWith (s pre : string) : bool :=
  match pre, s with
  | EmptyString, _ => true
  | String c pre', String d s' => Ascii.eqb c d && startsWith s' pre'
  | String _ _, EmptyString => false
  end.

(** [String.prototype.slice(k)] for a non-negative [k] *)
Fixpoint slice_from (k : nat) (s : string) : string :=
  match k, s with
  | O, _ => s
  | S k', String _ s' => slice_from k' s'
  | S _, EmptyString => EmptyString
  end.

(** [String.prototype.endsWith] for a one-character suffix *)
Fixpoint endsWith_char (s : string) (c : ascii) : bool :=
  match s with
  | EmptyString => false
  | String d EmptyString => Ascii.eqb c d
  | String _ s' => endsWith_char s' c
  end.

(** [s.slice(0, -1)] *)
Fixpoint drop_last (s : string) : string :=
  match s with
  | EmptyString => EmptyString
  | String _ EmptyString => EmptyString
  | String d s' => String d (drop_last s')
  end.

(** [String.prototype.split(sep)] for a one-character separator *)
Fixpoint split (sep : ascii) (s : string) : list string :=
  match s with
  | EmptyString => [EmptyString]
  | String c s' =>
      if Ascii.eqb c sep then EmptyString :: split sep s'
      else match split sep s' with
           | [] => [String c EmptyString]
           | x :: xs => String c x :: xs
           end
  end.

(** [String.prototype.includes] *)
Fixpoint includes (s pat : string) : bool :=
  startsWith s pat ||
  match s with
  | EmptyString => false
  | String _ s' => includes s' pat
  end.

(** [String.prototype.toLowerCase] on ASCII *)
Definition lower_char (c : ascii) : ascii :=
  let n := nat_of_ascii c in
  if (65 <=? n)%nat && (n <=? 90)%nat then ascii_of_nat (n + 32) else c.

Fixpoint toLowerCase (s : string) : string :=
  match s with
  | EmptyString => EmptyString
  | String c s' => String (lower_char c) (toLowerCase s')
  end.

(** [String.prototype.padStart(n, "0")] *)
Fixpoint zeros (n : nat) : string :=
  match n with
  | O => EmptyString
  | S n' => String "0" (zeros n')
  end.

Definition padStart0 (s : string) (target : nat) : string :=
  zeros (target - String.length s) ++ s.

(** [String.prototype.repeat] *)
Fixpoint repeat_str (s : string) (n : nat) : string :=
  match n with
  | O => EmptyString
  | S n' => s ++ repeat_str s n'
  end.

(** Digits: the character of a digit value (lower case, as
    [Number.prototype.toString(radix)] and [BigInt.prototype.toString(radix)]
    print them) and the value of a digit character in a given radix. *)
Definition digit_char (d : Z) : ascii :=
  ascii_of_nat (Z.to_nat (if d <? 10 then 48 + d else 87 + d)).

Definition digit_val (b : Z) (c : ascii) : option Z :=
  let n := Z.of_nat (nat_of_ascii c) in
  let d := if (48 <=? n) && (n <=? 57) then Some (n - 48)
           else if (97 <=? n) && (n <=? 122) then Some (n - 87)
           else if (65 <=? n) && (n <=? 90) then Some (n - 55)
           else None in
  match d with
  | Some v => if v <? b then Some v else None
  | None => None
  end.

(** [n.toString(b)] for an integer [n >= 0] *)
Fixpoint to_radix_aux (fuel : nat) (b n : Z) (acc : string) : string :=
  match fuel with
  | O => acc
  | S f =>
      let acc' := String (digit_char (n mod b)) acc in
      if n <? b then acc' else to_radix_aux f b (n / b) acc'
  end.

Definition to_radix (b n : Z) : string :=
  to_radix_aux (S (Z.to_nat (Z.log2 n))) b n EmptyString.

(** Value of a string made only of radix-[b] digits ([None] when some
    character is not a digit). *)
Fixpoint digits_value (b acc : Z) (s : string) : option Z :=
  match s with
  | EmptyString => Some acc
  | String c s' =>
      match digit_val b c with
      | Some d => digits_value b (acc * b + d) s'
      | None => None
      end
  end.

(** Value of the longest prefix of radix-[b] digits. *)
Fixpoint prefix_value (b acc : Z) (s : string) : Z :=
  match s with
  | EmptyString => acc
  | String c s' =>
      match digit_val b c with
      | Some d => prefix_value b (acc * b + d) s'
      | None => acc
      end
  end.

Definition is_ws (c : ascii) : bool :=
  let n := nat_of_ascii c in ((9 <=? n)%nat && (n <=? 13)%nat) || (n =? 32)%nat.

Fixpoint trim_start (s : string) : string :=
  match s with
  | String c s' => if is_ws c then trim_start s' else s
  | EmptyString => EmptyString
  end.

(** [parseInt(s, b)]: leading white space, an optional sign, for radix 16 an
    optional [0x]/[0X], then the longest digit prefix; [None] is [NaN]. *)
Definition parseInt (s : string) (b : Z) : option Z :=
  let s1 := trim_start s in
  let '(neg, s2) := match s1 with
                    | String "-" r => (true, r)
                    | String "+" r => (false, r)
                    | _ => (false, s1)
                    end in
  let s3 := if b =? 16 then
              match s2 with
              | String "0" (String x r) =>
                  if Ascii.eqb x "x" || Ascii.eqb x "X" then r else s2
              | _ => s2
              end
            else s2 in
  match s3 with
  | String c _ =>
      match digit_val b c with
      | Some _ => let v := prefix_value b 0 s3 in Some (if neg then - v else v)
      | None => None
      end
  | EmptyString => None
  end.

(** The regular expression [/^\d+$/]. *)
Definition is_dec_digit (c : ascii) : bool :=
  let n := nat_of_ascii c in (48 <=? n)%nat && (n <=? 57)%nat.

Fixpoint all_dec_digits (s : string) : bool :=
  match s with
  | EmptyString => true
  | String c s' => is_dec_digit c && all_dec_digits s'
  end.

Definition re_digits (s : string) : bool :=
  match s with
  | EmptyString => false
  | _ => all_dec_digits s
  end.

(** Every character satisfies [p]. *)
Fixpoint forall_chars (p : ascii -> bool) (s : string) : bool :=
  match s with
  | EmptyString => true
  | String c s' => p c && forall_chars p s'
  end.

End Js.

(* ------------------------------------------------------------------ *)
(** ** Derivation paths (src/src/trezor/index.ts) *)

Module Path.
Import Js.

(** One component of a parsed path: [{ index: number; hardened: boolean }];
    [parseInt] may give [NaN], written [None]. *)
Record segment := { index : option Z; hardened : bool }.

(** The check applied by [isValidPath] to each component. *)
Definition part_ok (part : string) : bool :=
  let isHardened := endsWith_char part "'" in
  let numStr := if isHardened then drop_last part else part in
  re_digits numStr &&
  match parseInt numStr 10 with
  | Some num => negb ((num <? 0) || (num >? 2147483647))
  | None => true (* comparisons with NaN are false *)
  end.

Definition isValidPath (path : string) : bool :=
  if negb (startsWith path "m/") then false
  else
    let parts := split "/" (slice_from 2 path) in
    match parts with
    | [] => false
    | [EmptyString] => false
    | _ => forallb part_ok parts
    end.

Definition parse_part (part : string) : segment :=
  let hardened := endsWith_char part "'" in
  {| index := parseInt (if hardened then drop_last part else part) 10;
     hardened := hardened |}.

(** [parsePath]; [None] is the thrown [InvalidPathError]. *)
Definition parsePath (path : string) : option (list segment) :=
  if negb (isValidPath path) then None
  else Some (map parse_part (split "/" (slice_from 2 path))).

(** The [index: number] argument of [buildPath]: an integral value, or any
    other number (fraction, [NaN], infinities), which [buildPath] rejects. *)
Inductive number :=
| NInt (z : Z)
| NNonInteger.

(** [`${index}`] for an integral number.  JavaScript prints integers in
    decimal (beyond 2^53 with rounded digits, from 10^21 on in exponent
    notation); every such rendering of a value above 0x7fffffff is rejected
    by [isValidPath], so exact decimal digits are used here. *)
Definition int_to_string (z : Z) : string :=
  if z <? 0 then "-" ++ to_radix 10 (- z) else to_radix 10 z.

(** [buildPath]; [None] is the thrown [InvalidPathError]. *)
Definition buildPath (basePath : string) (idx : number) : option string :=
  if negb (startsWith basePath "m/") then None
  else
    match idx with
    | NNonInteger => None
    | NInt z =>
        if z <? 0 then None
        else
          let fullPath := basePath ++ "/" ++ int_to_string z in
          if negb (isValidPath fullPath) then None else Some fullPath
    end.

End Path.

(* ------------------------------------------------------------------ *)
(** ** Signatures (src/src/shared/types.ts, with the [ox] helpers it calls) *)

Module Sig.
Import Js.

(** [normalizeV] *)
Definition normalizeV (v : Z) : Z :=
  if (v =? 0) || (v =? 1) then v + 27
  else if (v =? 27) || (v =? 28) then v
  else if v >=? 35 then v
  else Z.rem v 2 + 27.

Fixpoint trim_end (s : string) : string :=
  match s with
  | EmptyString => EmptyString
  | String c s' =>
      let r := trim_end s' in
      match r with
      | EmptyString => if is_ws c then EmptyString else String c EmptyString
      | _ => String c r
      end
  end.

(** [BigInt(string)]: white space trimmed; empty is [0n]; a [0x]/[0o]/[0b]
    prefix selects the radix and needs at least one digit; otherwise an
    optionally signed decimal.  [None] is the thrown [SyntaxError]. *)
Definition BigInt_of_string (s : string) : option Z :=
  let t := trim_end (trim_start s) in
  let nonempty r b := match r with
                      | EmptyString => None
                      | _ => digits_value b 0 r
                      end in
  match t with
  | EmptyString => Some 0
  | String "0" (String x r) =>
      if Ascii.eqb x "x" || Ascii.eqb x "X" then nonempty r 16
      else if Ascii.eqb x "o" || Ascii.eqb x "O" then nonempty r 8
      else if Ascii.eqb x "b" || Ascii.eqb x "B" then nonempty r 2
      else nonempty t 10
  | String "-" r => option_map Z.opp (nonempty r 10)
  | String "+" r => nonempty r 10
  | _ => nonempty t 10
  end.

(** ox [Hex.fromNumber(value, { size })]: range check, then [padLeft]. *)
Definition fromNumber_sized (value : Z) (size : nat) : option string :=
  if (value <? 0) || (value >? 2 ^ (8 * Z.of_nat size) - 1) then None
  else Some ("0x" ++ padStart0 (to_radix 16 value) (2 * size)).

Definition byte_val (b : Byte.byte) : Z := Z.of_N (Byte.to_N b).

(** ox [Hex.fromBytes] *)
Definition fromBytes (bs : list Byte.byte) : string :=
  "0x" ++ String.concat "" (map (fun b => padStart0 (to_radix 16 (byte_val b)) 2) bs).

(** An [r]/[s] argument: [Uint8Array | Hex]. *)
Inductive bytes_or_hex :=
| HexStr (s : string)
| RawBytes (bs : list Byte.byte).

Record SignatureComponents := { r : string; s : string; v : Z }.

(** [parseSignatureBytes] *)
Definition parseSignatureBytes (r0 s0 : bytes_or_hex) (v0 : Z) : SignatureComponents :=
  let to_hex x := match x with HexStr h => h | RawBytes bs => fromBytes bs end in
  {| r := to_hex r0; s := to_hex s0; v := normalizeV v0 |}.

Definition maxUint256 : Z := 2 ^ 256 - 1.

(** ox [Signature.yParityToV] *)
Definition yParityToV (y : Z) : option Z :=
  if y =? 0 then Some 27 else if y =? 1 then Some 28 else None.

(** ox [Signature.toHex (Signature.from { r, s, yParity })]: the [assert]
    range checks, then [Hex.concat] of the 32-byte [r], the 32-byte [s] and
    the one-byte [yParityToV(yParity)]. *)
Definition ox_signature_toHex (rv sv y : Z) : option string :=
  if (rv <? 0) || (rv >? maxUint256) then None
  else if (sv <? 0) || (sv >? maxUint256) then None
  else if negb ((y =? 0) || (y =? 1)) then None
  else
    match fromNumber_sized rv 32, fromNumber_sized sv 32, yParityToV y with
    | Some rh, Some sh, Some vv =>
        match fromNumber_sized vv 1 with
        | Some vh => Some ("0x" ++ slice_from 2 rh ++ slice_from 2 sh ++ slice_from 2 vh)
        | None => None
        end
    | _, _, _ => None
    end.

(** [serializeSignature]; [None] is a thrown exception. *)
Definition serializeSignature (c : SignatureComponents) : option string :=
  let yParity := if (c.(v) =? 28) || (Z.rem c.(v) 2 =? 0) then 1 else 0 in
  match BigInt_of_string c.(r), BigInt_of_string c.(s) with
  | Some rv, Some sv => ox_signature_toHex rv sv yParity
  | _, _ => None
  end.

Definition curveOrder : Z :=
  0xfffffffffffffffffffffffffffffffebaaedce6af48a03bbfd25e8cd0364141.

(** [normalizeS]; [None] is a thrown exception. *)
Definition normalizeS (s0 : string) : option string :=
  let halfOrder := curveOrder / 2 in
  match BigInt_of_string s0 with
  | None => None
  | Some sBigInt =>
      if sBigInt >? halfOrder then fromNumber_sized (curveOrder - sBigInt) 32
      else Some s0
  end.

(** [toViemSignature] *)
Definition toViemSignature (c : SignatureComponents) : option string :=
  match normalizeS c.(s) with
  | Some ns => serializeSignature {| r := c.(r); s := ns; v := c.(v) |}
  | None => None
  end.

(** [Hex.fromNumber(x, { size: 32 })] for [x] in range. *)
Definition hex32 (x : Z) : string := "0x" ++ padStart0 (to_radix 16 x) 64.

Definition halfOrder : Z := curveOrder / 2.

(** The layout [serializeSignature] produces: [0x], the 32-byte [r], the
    32-byte [s] and one recovery byte. *)
Definition serialized_layout (rv sv v0 : Z) : string :=
  "0x" ++ padStart0 (to_radix 16 rv) 64 ++ padStart0 (to_radix 16 sv) 64 ++
  (if (v0 =? 28) || (Z.rem v0 2 =? 0) then "1c" else "1b").

End Sig.

(* ------------------------------------------------------------------ *)
(** ** Error classification (src/src/shared/errors.ts) *)

Module Errors.
Import Js.

(** A [HardwareWalletError] (or subclass): its [name], [code] and
    [message]. *)
Record HardwareWalletError := { name : string; code : string; message : string }.

(** The values a fault can be: JavaScript primitives, plain data objects
    (own properties as an association list) and already classified errors. *)
Inductive jsval :=
| JUndefined
| JNull
| JBool (b : bool)
| JNum (z : Z)
| JStr (str : string)
| JObj (fields : list (string * jsval))
| JHwErr (e : HardwareWalletError).

Fixpoint assoc (k : string) (fs : list (string * jsval)) : jsval :=
  match fs with
  | [] => JUndefined
  | (k', x) :: fs' => if String.eqb k k' then x else assoc k fs'
  end.

(** Property access [v.k]; [None] is the [TypeError] of reading a property
    of [null] or [undefined]. *)
Definition get (x : jsval) (k : string) : option jsval :=
  match x with
  | JUndefined | JNull => None
  | JObj fs => Some (assoc k fs)
  | JHwErr e =>
      Some (if String.eqb k "name" then JStr e.(name)
            else if String.eqb k "code" then JStr e.(code)
            else if String.eqb k "message" then JStr e.(message)
            else JUndefined)
  | _ => Some JUndefined
  end.

(** [String(v)] and template-literal conversion. *)
Definition to_js_string (x : jsval) : string :=
  match x with
  | JUndefined => "undefined"
  | JNull => "null"
  | JBool b => if b then "true" else "false"
  | JNum z => Path.int_to_string z
  | JStr str => str
  | JObj _ => "[object Object]"
  | JHwErr e => e.(name) ++ ": " ++ e.(message)
  end.

Definition truthy (x : jsval) : bool :=
  match x with
  | JUndefined | JNull => false
  | JBool b => b
  | JNum z => negb (z =? 0)
  | JStr str => negb (String.eqb str "")
  | _ => true
  end.

(** [a ?? b] *)
Definition coalesce (a b : jsval) : jsval :=
  match a with JUndefined | JNull => b | _ => a end.

(** The result of a classifier: a returned error, or a [TypeError] thrown
    from inside it. *)
Inductive outcome :=
| Returns (e : HardwareWalletError)
| ThrowsTypeError.

Definition vendor_name (ledger : bool) : string := if ledger then "Ledger" else "Trezor".

Definition DeviceNotFoundError (ledger : bool) (details : jsval) : HardwareWalletError :=
  {| name := "DeviceNotFoundError"; code := "DEVICE_NOT_FOUND";
     message := vendor_name ledger ++ " device not found" ++
                (if truthy details then ": " ++ to_js_string details else "") |}.

Definition UserRejectedError (action : string) : HardwareWalletError :=
  {| name := "UserRejectedError"; code := "USER_REJECTED";
     message := "User rejected " ++ action ++ " on device" |}.

Definition DeviceLockedError (ledger : bool) : HardwareWalletError :=
  {| name := "DeviceLockedError"; code := "DEVICE_LOCKED";
     message := vendor_name ledger ++ " device is locked. Please unlock it first." |}.

Definition AppNotOpenError : HardwareWalletError :=
  {| name := "AppNotOpenError"; code := "APP_NOT_OPEN";
     message := "Please open the Ethereum app on your Ledger device" |}.

Definition UnsupportedOperationError (operation : string) : HardwareWalletError :=
  {| name := "UnsupportedOperationError"; code := "UNSUPPORTED_OPERATION";
     message := "Unsupported operation: " ++ operation |}.

Definition plain_error (msg c : string) : HardwareWalletError :=
  {| name := "HardwareWalletError"; code := c; message := msg |}.

(** The string-based detection of [mapLedgerError]. *)
Definition ledger_heuristics (msg : string) (errName : jsval) : HardwareWalletError :=
  if includes msg "0x6985" || includes msg "denied" || includes msg "rejected" then
    UserRejectedError "signature"
  else if includes msg "locked" || includes msg "pin" ||
          includes (toLowerCase msg) "0x6faa" then
    DeviceLockedError true
  else if includes msg "not found" || includes msg "no device" ||
          (match errName with JStr n => String.eqb n "TransportOpenUserCancelled"
                             | _ => false end) then
    DeviceNotFoundError true (JStr msg)
  else if includes msg "app" && (includes msg "open" || includes msg "launch") then
    AppNotOpenError
  else plain_error msg "UNKNOWN_ERROR".

(** [mapLedgerError] *)
Definition mapLedgerError (error : jsval) : outcome :=
  match error with
  | JHwErr e => Returns e
  | _ =>
      match get error "message", get error "statusCode", get error "name" with
      | Some m, Some sc, Some nm =>
          let msg := coalesce m (JStr (to_js_string error)) in
          let st k := match sc with JNum z => z =? k | _ => false end in
          if st 0x6985 || st 0x6986 then
            Returns (UserRejectedError "signature")
          else if st 0x6a80 || st 0x6a82 then
            Returns (plain_error ("Invalid data: " ++ to_js_string msg) "INVALID_DATA")
          else if st 0x6b00 then
            Returns (plain_error ("Wrong parameter: " ++ to_js_string msg) "WRONG_PARAMETER")
          else if st 0x6d00 || st 0x6e00 then
            Returns (UnsupportedOperationError (to_js_string msg))
          else if st 0x6faa then
            Returns (DeviceLockedError true)
          else
            match msg with
            | JStr str => Returns (ledger_heuristics str nm)
            | _ => ThrowsTypeError (* [message.includes] is not a function *)
            end
      | _, _, _ => ThrowsTypeError
      end
  end.

(** The string-based detection of [mapTrezorError]. *)
Definition trezor_heuristics (msg : string) : HardwareWalletError :=
  if includes msg "cancelled" || includes msg "rejected" || includes msg "denied" then
    UserRejectedError "signature"
  else if includes msg "not found" || includes msg "no device" then
    DeviceNotFoundError false (JStr msg)
  else if includes msg "pin" || includes msg "passphrase" || includes msg "locked" then
    DeviceLockedError false
  else plain_error msg "UNKNOWN_ERROR".

(** [mapTrezorError] *)
Definition mapTrezorError (error : jsval) : outcome :=
  match error with
  | JHwErr e => Returns e
  | _ =>
      match get error "message", get error "error", get error "code" with
      | Some m, Some er, Some c =>
          let msg := coalesce m (coalesce er (JStr (to_js_string error))) in
          let is k := match coalesce c (JStr "") with
                      | JStr str => String.eqb str k
                      | _ => false
                      end in
          if is "Failure_ActionCancelled" || is "Method_Cancel" then
            Returns (UserRejectedError "signature")
          else if is "Device_CallInProgress" then
            Returns (plain_error "Device is busy with another operation" "DEVICE_BUSY")
          else if is "Device_InvalidState" || is "Device_NotInitialized" then
            Returns (DeviceLockedError false)
          else if is "Transport_Missing" || is "Device_NotFound" then
            Returns (DeviceNotFoundError false msg)
          else
            match msg with
            | JStr str => Returns (trezor_heuristics str)
            | _ => ThrowsTypeError
            end
      | _, _, _ => ThrowsTypeError
      end
  end.

(** The status codes the [switch] of [mapLedgerError] handles. *)
Definition ledger_status_codes : list Z :=
  [0x6985; 0x6986; 0x6a80; 0x6a82; 0x6b00; 0x6d00; 0x6e00; 0x6faa].

End Errors.

(* ------------------------------------------------------------------ *)
(** ** Ledger connection state machine (src/src/ledger/device.ts) *)

Module Device.
Import Errors.

Inductive ConnectionState := disconnected | connecting | connected | error.

Definition state_eqb (a b : ConnectionState) : bool :=
  match a, b with
  | disconnected, disconnected | connecting, connecting
  | connected, connected | error, error => true
  | _, _ => false
  end.

(** Listeners are identified by a number; [listeners] is the [Set] in
    insertion order. *)
Definition listener := nat.

Record manager := {
  transport : bool;  (* [transport !== null] *)
  ethApp : bool;     (* [ethApp !== null] *)
  state : ConnectionState;
  listeners : list listener }.

(** One listener call: the listener, the arguments [(state, error)] it
    receives, and the value of the public [state] getter at that moment. *)
Record notification := {
  who : listener;
  notified : ConnectionState;
  fault : option jsval;
  observed : ConnectionState }.

(** [createLedgerDeviceManager()] *)
Definition createLedgerDeviceManager : manager :=
  {| transport := false; ethApp := false; state := disconnected; listeners := [] |}.

(** [setState]: the state is written, then [listeners.forEach]. *)
Definition setState (m : manager) (s : ConnectionState) (e : option jsval)
  : manager * list notification :=
  let m' := {| transport := m.(transport); ethApp := m.(ethApp); state := s;
               listeners := m.(listeners) |} in
  (m', map (fun l => {| who := l; notified := s; fault := e; observed := m'.(state) |})
           m'.(listeners)).

(** [onStateChange(listener)]: [Set.prototype.add]. *)
Definition onStateChange (l : listener) (m : manager) : manager :=
  {| transport := m.(transport); ethApp := m.(ethApp); state := m.(state);
     listeners := if existsb (Nat.eqb l) m.(listeners) then m.(listeners)
                  else (m.(listeners) ++ [l])%list |}.

(** The unsubscribe function returned by [onStateChange]. *)
Definition unsubscribe (l : listener) (m : manager) : manager :=
  {| transport := m.(transport); ethApp := m.(ethApp); state := m.(state);
     listeners := filter (fun l' => negb (Nat.eqb l l')) m.(listeners) |}.

(** What the awaited vendor calls of [connect] ([createTransport],
    [loadEthApp], [getAppConfiguration]) do: all succeed, or one rejects. *)
Inductive vendor_result := VendorOk | VendorFails (f : jsval).

(** How [connect()] settles. *)
Inductive connect_result := Resolved | Rejected (o : outcome).

(** [connect()] *)
Definition connect (vr : vendor_result) (m : manager)
  : manager * list notification * connect_result :=
  if state_eqb m.(state) connected && m.(transport) then (m, [], Resolved)
  else
    let '(m1, n1) := setState m connecting None in
    match vr with
    | VendorOk =>
        let m2 := {| transport := true; ethApp := true; state := m1.(state);
                     listeners := m1.(listeners) |} in
        let '(m3, n2) := setState m2 connected None in
        (m3, (n1 ++ n2)%list, Resolved)
    | VendorFails f =>
        let m2 := {| transport := false; ethApp := false; state := m1.(state);
                     listeners := m1.(listeners) |} in
        let '(m3, n2) := setState m2 error (Some f) in
        (m3, (n1 ++ n2)%list, Rejected (mapLedgerError f))
    end.

(** [disconnect()]: close errors are swallowed. *)
Definition disconnect (m : manager) : manager * list notification :=
  let m1 := {| transport := false; ethApp := false; state := m.(state);
               listeners := m.(listeners) |} in
  setState m1 disconnected None.

(** A manager created by [createLedgerDeviceManager()] with the listeners
    [ls] registered through [onStateChange], in order. *)
Definition register_all (ls : list listener) : manager :=
  fold_left (fun m l => onStateChange l m) ls createLedgerDeviceManager.

(** [await connect(); await disconnect()]: the final manager, every listener
    call in order, and how [connect()] settled. *)
Definition connect_then_disconnect (vr : vendor_result) (m0 : manager)
  : manager * list notification * connect_result :=
  let '(m1, n1, res) := connect vr m0 in
  let '(m2, n2) := disconnect m1 in
  (m2, (n1 ++ n2)%list, res).

End Device.

(* ------------------------------------------------------------------ *)
(** ** RLP encoder ([rlpEncode], src/unnamed/part_006) *)

Module Rlp.
Import Js.

(** The argument of [rlpEncode(input: unknown)]. *)
Inductive rlp_input :=
| RStr (str : string)
| RList (items : list rlp_input)
| ROther.

(** [x.toString(16)] for a number [x = x2 / 2 >= 0]: lengths are computed as
    [hex.length / 2], so halves occur, printed as [.8]. *)
Definition half_to_hex (x2 : Z) : string :=
  to_radix 16 (x2 / 2) ++ (if Z.odd x2 then ".8" else "").

(** The hex-string branch of [rlpEncode]; numbers are kept in halves. *)
Definition rlpEncode_hex (input : string) : string :=
  let hex := slice_from 2 input in
  let hl := Z.of_nat (String.length hex) in          (* len = hl / 2 *)
  if hl =? 0 then "0x80"
  else if (hl =? 2) && (match parseInt hex 16 with Some x => x <? 128 | None => false end)
  then input
  else if hl <=? 110 then "0x" ++ half_to_hex (2 * 0x80 + hl) ++ hex
  else
    let lenHex := half_to_hex hl in
    let lhl := Z.of_nat (String.length lenHex) in
    (* lenBytes = lenHex.length / 2 + (lenHex.length % 2) = lenBytes2 / 2 *)
    let lenBytes2 := lhl + 2 * (lhl mod 2) in
    "0x" ++ half_to_hex (2 * 0xb7 + lenBytes2) ++
    padStart0 lenHex (Z.to_nat lenBytes2) ++ hex.

(** The list branch of [rlpEncode], given the encoded items. *)
Definition rlpEncode_list (encoded : list string) : string :=
  let concatenated := String.concat "" (map (slice_from 2) encoded) in
  let cl := Z.of_nat (String.length concatenated) in  (* len = cl / 2 *)
  if cl <=? 110 then "0x" ++ half_to_hex (2 * 0xc0 + cl) ++ concatenated
  else
    let lenHex := half_to_hex cl in
    let lenBytes := (Z.of_nat (String.length lenHex) + 1) / 2 in  (* Math.ceil *)
    "0x" ++ half_to_hex (2 * (0xf7 + lenBytes)) ++
    padStart0 lenHex (Z.to_nat (lenBytes * 2)) ++ concatenated.

(** [rlpEncode] *)
Fixpoint rlpEncode (input : rlp_input) : string :=
  match input with
  | RStr str => if startsWith str "0x" then rlpEncode_hex str else "0x80"
  | RList items => rlpEncode_list (map rlpEncode items)
  | ROther => "0x80"
  end.

(** The layout the RLP rule prescribes for a byte string longer than 55
    bytes: [0xb7 + k], then the length as [k] minimal big-endian bytes, then
    the bytes (this follows the rule's wording, for comparison with
    [rlpEncode]). *)
Fixpoint be_bytes_aux (fuel : nat) (n : Z) : list Z :=
  match fuel with
  | O => []
  | S f => if n =? 0 then [] else be_bytes_aux f (n / 256) ++ [n mod 256]
  end.

Definition be_bytes (n : Z) : list Z := be_bytes_aux (S (Z.to_nat (Z.log2 n))) n.

Definition hex_of_byte (x : Z) : string := padStart0 (to_radix 16 x) 2.

Definition rlp_long_string_rule (bs : list Byte.byte) : string :=
  let lenBytes := be_bytes (Z.of_nat (List.length bs)) in
  "0x" ++ hex_of_byte (0xb7 + Z.of_nat (List.length lenBytes)) ++
  String.concat "" (map hex_of_byte lenBytes) ++
  slice_from 2 (Sig.fromBytes bs).

End Rlp.

(* ------------------------------------------------------------------ *)
(** ** Signature validity (src/src/shared/types.ts) *)

Module SigCheck.
Import Js Sig.

(** [isValidSignature]: the thrown [SyntaxError] of [BigInt] is caught and
    gives [false]. *)
Definition isValidSignature (c : SignatureComponents) : bool :=
  if negb ((String.length c.(r) =? 66)%nat && (String.length c.(s) =? 66)%nat) then false
  else
    match BigInt_of_string c.(r), BigInt_of_string c.(s) with
    | Some rBigInt, Some sBigInt =>
        if (rBigInt =? 0) || (rBigInt >=? curveOrder) then false
        else if (sBigInt =? 0) || (sBigInt >=? curveOrder) then false
        else true
    | _, _ => false
    end.

End SigCheck.

(* ------------------------------------------------------------------ *)
(** ** Deterministic test keys (src/src/shared/types.ts) *)

Module TestKeys.





(** ECMAScript [ToInt32]. *)
Definition toInt32 (x : Z) : Z :=
  let m := x mod 2 ^ 32 in if m >=? 2 ^ 31 then m - 2 ^ 32 else m.

(** The loop of [simpleHash]: [hash << 5] is [ToInt32(ToInt32(hash) * 2^5)],
    the subtraction and addition are exact on these magnitudes, and
    [hash & hash] is [ToInt32(hash)]. *)
Fixpoint simpleHash_loop (hash : Z) (str : string) : Z :=
  match str with
  | EmptyString => hash
  | String c rest =>
      let char := Z.of_nat (nat_of_ascii c) in
      let hash1 := toInt32 (toInt32 hash * 2 ^ 5) - hash + char in
      simpleHash_loop (toInt32 hash1) rest
  end.

(** [simpleHash] *)
Definition simpleHash (str : string) : Z := simpleHash_loop 0 str.


(** Java's [String.hashCode] recurrence [h * 31 + char], computed exactly. *)
Fixpoint poly31 (acc : Z) (str : string) : Z :=
  match str with
  | EmptyString => acc
  | String c rest => poly31 (acc * 31 + Z.of_nat (nat_of_ascii c)) rest
  end.

End TestKeys.

(* ------------------------------------------------------------------ *)
(** ** Path helpers (src/src/trezor/index.ts) *)

Module PathApi.
Import Js Path.


(** [DERIVATION_PATHS.LEGACY] *)
Definition DERIVATION_PATHS_LEGACY : string := "m/44'/60'/0'".

(** [pathToLedgerFormat]: [None] is the [InvalidPathError] thrown by
    [parsePath]; an element [None] is [NaN]. *)
Definition pathToLedgerFormat (p : string) : option (list (option Z)) :=
  match parsePath p with
  | None => None
  | Some components =>
      Some (map (fun sg => if sg.(hardened) then option_map (fun i => i + 0x80000000) sg.(index)
                           else sg.(index)) components)
  end.



(** A path part without a separator. *)
Definition no_slash (t : string) : bool := forall_chars (fun c => negb (Ascii.eqb c "/")) t.

(** The encoding [pathToLedgerFormat] applies to one segment. *)
Definition ledger_code (sg : segment) : option Z :=
  if sg.(hardened) then option_map (fun i => i + 0x80000000) sg.(index) else sg.(index).

(** Reading a Ledger path element back as a segment. *)
Definition ledger_decode (k : Z) : segment :=
  {| index := Some (k mod 2 ^ 31); hardened := 2 ^ 31 <=? k |}.

End PathApi.

(* ------------------------------------------------------------------ *)
(** ** The other methods of the Ledger device manager
    (src/src/ledger/device.ts) *)

Module DeviceApi.
Import Errors Device.

(** [new AppNotOpenError(requiredApp)] (errors.ts); device.ts passes
    ['ledger'] as its first argument, the second one is ignored. *)
Definition AppNotOpenError_for (requiredApp : string) : HardwareWalletError :=
  {| name := "AppNotOpenError"; code := "APP_NOT_OPEN";
     message := "Please open the " ++ requiredApp ++ " app on your Ledger device" |}.

(** [isConnected()] *)
Definition isConnected (m : manager) : bool :=
  state_eqb m.(state) connected && m.(transport).

(** The object [getAppConfig()] resolves with. *)
Record LedgerAppConfig := {
  app_name : string;
  version : jsval;
  flags : Z;
  supportsEIP712 : bool;
  blindSigningEnabled : jsval }.

(** What [ethApp.getAppConfiguration()] does: resolve with a configuration
    object (its [version] and [arbitraryDataEnabled] properties), or
    reject. *)
Inductive config_result := ConfigOk (ver arbitraryDataEnabled : jsval) | ConfigFails (f : jsval).

(** How [getAppConfig()] settles ([AppConfigRejected o]: rejects with the
    error [mapLedgerError] returns, or with its own [TypeError]). *)
Inductive app_config_result :=
| AppConfig (c : LedgerAppConfig)
| AppConfigRejected (o : outcome).

(** [a || b] *)
Definition js_or (a b : jsval) : jsval := if truthy a then a else b.

(** [getAppConfig()] *)
Definition getAppConfig (cr : config_result) (m : manager) : app_config_result :=
  if negb m.(ethApp) then AppConfigRejected (Returns (AppNotOpenError_for "ledger"))
  else
    match cr with
    | ConfigOk ver ade =>
        AppConfig {| app_name := "Ethereum";
                     version := js_or ver (JStr "unknown");
                     flags := if truthy ade then 1 else 0;
                     supportsEIP712 := true;
                     blindSigningEnabled := js_or ade (JBool false) |}
    | ConfigFails f => AppConfigRejected (mapLedgerError f)
    end.

(** What [ethApp.getAddress(path, true)] does. *)
Inductive address_result := AddrOk (address : string) | AddrFails (f : jsval).

(** How [verifyAddress()] settles: resolves with [{ address, verified: true }],
    rejects with what [connect] or [mapLedgerError] gives, or rejects with a
    plain [Error(message)]. *)
Inductive verify_result :=
| Verified (address : string)
| VerifyRejected (o : outcome)
| VerifyThrowsError (msg : string).

(** [verifyAddress(path)]: the [connect()] it may run, then the checks.
    [isValidPath] is imported from [shared/paths.js], a module not in the
    sources; the [isValidPath] of src/src/trezor/index.ts is used. *)
Definition verifyAddress (vr : vendor_result) (ar : address_result) (p : string)
  (m : manager) : manager * list notification * verify_result :=
  let '(m1, n1, cres) := if negb m.(ethApp) then connect vr m else (m, [], Resolved) in
  match cres with
  | Rejected o => (m1, n1, VerifyRejected o)
  | Resolved =>
      if negb m1.(ethApp) then (m1, n1, VerifyRejected (Returns (AppNotOpenError_for "ledger")))
      else if negb (Path.isValidPath p) then
        (m1, n1, VerifyThrowsError ("Invalid derivation path: " ++ p))
      else
        match ar with
        | AddrOk a => (m1, n1, Verified a)
        | AddrFails f => (m1, n1, VerifyRejected (mapLedgerError f))
        end
  end.

(** The calls a client makes on one manager, each awaited before the next
    (concurrent calls are not modelled). *)
Inductive op :=
| OpConnect (vr : vendor_result)
| OpDisconnect
| OpSubscribe (l : listener)
| OpUnsubscribe (l : listener)
| OpGetAppConfig (cr : config_result)
| OpVerify (vr : vendor_result) (ar : address_result) (p : string).

Definition step (m : manager) (o : op) : manager :=
  match o with
  | OpConnect vr => fst (fst (connect vr m))
  | OpDisconnect => fst (disconnect m)
  | OpSubscribe l => onStateChange l m
  | OpUnsubscribe l => unsubscribe l m
  | OpGetAppConfig _ => m
  | OpVerify vr ar p => fst (fst (verifyAddress vr ar p m))
  end.

(** The manager after [createLedgerDeviceManager()] and the calls [ops]. *)
Definition run (ops : list op) : manager := fold_left step ops createLedgerDeviceManager.

End DeviceApi.

(* ------------------------------------------------------------------ *)
(** ** Ledger transaction serialisation (src/unnamed/part_006) *)

Module LedgerTx.
Import Js Rlp.

(** ox [Hex.fromNumber(value)] without [size] on a bigint: no upper bound,
    a negative value throws [IntegerOutOfRangeError] ([None]). *)
Definition fromNumber (value : Z) : option string :=
  if value <? 0 then None else Some ("0x" ++ to_radix 16 value).

(** [s.replace(/^0+/, "")] *)
Fixpoint strip_leading_zeros (s : string) : string :=
  match s with
  | String "0" s' => strip_leading_zeros s'
  | _ => s
  end.

(** [toRlpHex] for an integral [number] or a [bigint]; [None] is a thrown
    exception. *)
Definition toRlpHex (value : Z) : option string :=
  if value =? 0 then Some "0x"
  else
    match fromNumber value with
    | None => None
    | Some hex =>
        let withoutPrefix := slice_from 2 hex in
        let trimmed := match strip_leading_zeros withoutPrefix with
                       | EmptyString => "0"
                       | t => t
                       end in
        Some ("0x" ++ (if Nat.odd (String.length trimmed) then "0" else "") ++ trimmed)
    end.

(** The fields of a [TransactionSerializable] read by
    [serializeTransactionForLedger] ([None] is [undefined]). *)
Record TransactionSerializable := {
  to : option string;
  value : option Z;
  nonce : option Z;
  data : option string;
  gas : option Z;
  gasPrice : option Z;
  maxFeePerGas : option Z;
  maxPriorityFeePerGas : option Z;
  chainId : option Z }.

Definition dflt {A} (d : A) (o : option A) : A :=
  match o with Some x => x | None => d end.

(** Evaluation of an array literal whose elements may throw. *)
Fixpoint all_some {A} (xs : list (option A)) : option (list A) :=
  match xs with
  | [] => Some []
  | Some x :: xs' => option_map (cons x) (all_some xs')
  | None :: _ => None
  end.

(** [serializeTransactionForLedger]; [None] is a thrown exception. *)
Definition serializeTransactionForLedger (tx : TransactionSerializable) : option string :=
  let chain := dflt 1 tx.(chainId) in
  let str x := Some (RStr x) in
  let num x := option_map RStr (toRlpHex x) in
  match tx.(maxFeePerGas) with
  | Some _ =>
      match all_some [num chain; num (dflt 0 tx.(nonce));
                      num (dflt 0 tx.(maxPriorityFeePerGas)); num (dflt 0 tx.(maxFeePerGas));
                      num (dflt 21000 tx.(gas)); str (dflt "0x" tx.(to));
                      num (dflt 0 tx.(value)); str (dflt "0x" tx.(data));
                      Some (RList [])] with
      | Some fields =>
          let encoded := rlpEncode (RList fields) in
          Some ("0x02" ++ slice_from 2 encoded)
      | None => None
      end
  | None =>
      match all_some [num (dflt 0 tx.(nonce)); num (dflt 0 tx.(gasPrice));
                      num (dflt 21000 tx.(gas)); str (dflt "0x" tx.(to));
                      num (dflt 0 tx.(value)); str (dflt "0x" tx.(data));
                      num chain; str "0x"; str "0x"] with
      | Some fields => Some (rlpEncode (RList fields))
      | None => None
      end
  end.

End LedgerTx.

(* ================================================================== *)
(** * Facts about the string primitives *)

Module JsFacts.
Import Js.

Lemma str_app_assoc (a b c : string) : (a ++ b) ++ c = a ++ (b ++ c).
Proof. induction a as [|x a IH]; simpl; [reflexivity | now rewrite IH]. Qed.

Lemma str_app_nil_r (a : string) : a ++ "" = a.
Proof. induction a as [|x a IH]; simpl; [reflexivity | now rewrite IH]. Qed.

Lemma str_length_app (a b : string) :
  String.length (a ++ b) = (String.length a + String.length b)%nat.
Proof. induction a as [|x a IH]; simpl; [reflexivity | now rewrite IH]. Qed.

Lemma forall_chars_app p a b :
  forall_chars p (a ++ b) = forall_chars p a && forall_chars p b.
Proof.
  induction a as [|x a IH]; simpl; [reflexivity | now rewrite IH, andb_assoc].
Qed.

Lemma to_radix_aux_acc fuel b n acc :
  to_radix_aux fuel b n acc = to_radix_aux fuel b n "" ++ acc.
Proof.
  revert n acc; induction fuel as [|f IH]; intros n acc; simpl; [reflexivity|].
  destruct (n <? b); [reflexivity|].
  rewrite IH, (IH _ (String _ "")), str_app_assoc; reflexivity.
Qed.

Lemma digits_value_app b a s1 s2 :
  digits_value b a (s1 ++ s2) =
  match digits_value b a s1 with Some a' => digits_value b a' s2 | None => None end.
Proof.
  revert a; induction s1 as [|c s1 IH]; intro a; simpl; [reflexivity|].
  destruct (digit_val b c); [apply IH | reflexivity].
Qed.

Lemma ascii_code (k : Z) : 0 <= k < 256 ->
  Z.of_nat (nat_of_ascii (ascii_of_nat (Z.to_nat k))) = k.
Proof.
  intro Hk. rewrite Ascii.nat_ascii_embedding by lia. lia.
Qed.

Lemma digit_val_char b d : 2 <= b <= 36 -> 0 <= d < b ->
  digit_val b (digit_char d) = Some d.
Proof.
  intros Hb Hd. unfold digit_val, digit_char.
  destruct (Z.ltb_spec d 10) as [Hlt|Hge].
  - rewrite ascii_code by lia.
    replace ((48 <=? 48 + d) && (48 + d <=? 57)) with true by (symmetry; apply andb_true_intro; split; apply Z.leb_le; lia).
    replace (48 + d - 48) with d by lia.
    now replace (d <? b) with true by (symmetry; apply Z.ltb_lt; lia).
  - rewrite ascii_code by lia.
    replace ((48 <=? 87 + d) && (87 + d <=? 57)) with false by (symmetry; apply andb_false_intro2; apply Z.leb_gt; lia).
    replace ((97 <=? 87 + d) && (87 + d <=? 122)) with true by (symmetry; apply andb_true_intro; split; apply Z.leb_le; lia).
    replace (87 + d - 87) with d by lia.
    now replace (d <? b) with true by (symmetry; apply Z.ltb_lt; lia).
Qed.

Lemma to_radix_aux_S f b n acc :
  to_radix_aux (S f) b n acc =
  if n <? b then String (digit_char (n mod b)) acc
  else to_radix_aux f b (n / b) (String (digit_char (n mod b)) acc).
Proof. reflexivity. Qed.

Lemma to_radix_aux_value b : 2 <= b <= 36 -> forall fuel n,
  0 <= n < b ^ Z.of_nat (S fuel) ->
  digits_value b 0 (to_radix_aux (S fuel) b n "") = Some n.
Proof.
  intros Hb fuel. induction fuel as [|f IH]; intros n Hn; rewrite to_radix_aux_S.
  - destruct (Z.ltb_spec n b) as [Hlt|Hge].
    + simpl. rewrite Z.mod_small by lia. now rewrite digit_val_char by lia.
    + simpl in Hn. lia.
  - destruct (Z.ltb_spec n b) as [Hlt|Hge].
    + simpl. rewrite Z.mod_small by lia. now rewrite digit_val_char by lia.
    + rewrite to_radix_aux_acc, digits_value_app.
      rewrite IH.
      * simpl. rewrite digit_val_char by (try pose proof (Z.mod_pos_bound n b); lia).
        f_equal. pose proof (Z.div_mod n b). lia.
      * split; [apply Z.div_pos; lia|].
        apply Z.div_lt_upper_bound; [lia|].
        replace (Z.of_nat (S (S f))) with (Z.succ (Z.of_nat (S f))) in Hn by lia.
        rewrite Z.pow_succ_r in Hn by lia. lia.
Qed.

Lemma radix_fuel_bound b n : 2 <= b -> 0 <= n ->
  n < b ^ Z.of_nat (S (Z.to_nat (Z.log2 n))).
Proof.
  intros Hb Hn.
  replace (Z.of_nat (S (Z.to_nat (Z.log2 n)))) with (Z.succ (Z.log2 n))
    by (pose proof (Z.log2_nonneg n); lia).
  apply Z.lt_le_trans with (2 ^ Z.succ (Z.log2 n)).
  - destruct (Z.eq_dec n 0) as [->|Hn0]; [reflexivity|].
    apply Z.log2_spec; lia.
  - apply Z.pow_le_mono_l. pose proof (Z.log2_nonneg n); lia.
Qed.

Lemma to_radix_value b n : 2 <= b <= 36 -> 0 <= n ->
  digits_value b 0 (to_radix b n) = Some n.
Proof.
  intros Hb Hn. unfold to_radix. apply to_radix_aux_value; [lia|].
  split; [lia|]. apply radix_fuel_bound; lia.
Qed.

Lemma to_radix_aux_chars (p : ascii -> bool) b fuel : 0 < b ->
  (forall d, 0 <= d < b -> p (digit_char d) = true) ->
  forall n acc, forall_chars p acc = true ->
  forall_chars p (to_radix_aux fuel b n acc) = true.
Proof.
  intros Hb Hp. induction fuel as [|f IH]; intros n acc Hacc; simpl; [exact Hacc|].
  assert (Hd : p (digit_char (n mod b)) = true) by (apply Hp; apply Z.mod_pos_bound; lia).
  destruct (n <? b); simpl; [now rewrite Hd, Hacc|].
  apply IH. simpl. now rewrite Hd, Hacc.
Qed.

Lemma to_radix_aux_length_bound b : 2 <= b -> forall f n k,
  0 <= n -> (1 <= k)%nat -> n < b ^ Z.of_nat k ->
  (String.length (to_radix_aux (S f) b n "") <= k)%nat.
Proof.
  intros Hb f. induction f as [|f IH]; intros n k Hn Hk Hlt; rewrite to_radix_aux_S.
  - destruct (n <? b); simpl; lia.
  - destruct (Z.ltb_spec n b) as [Hnb|Hnb]; [simpl; lia|].
    rewrite to_radix_aux_acc, str_length_app. cbn [String.length].
    destruct k as [|k]; [lia|].
    destruct k as [|k].
    + simpl in Hlt. lia.
    + assert (Hk' : (String.length (to_radix_aux (S f) b (n / b) "") <= S k)%nat).
      { apply IH; [apply Z.div_pos; lia | lia |].
        apply Z.div_lt_upper_bound; [lia|].
        replace (Z.of_nat (S (S k))) with (Z.succ (Z.of_nat (S k))) in Hlt by lia.
        rewrite Z.pow_succ_r in Hlt by lia. lia. }
      lia.
Qed.

Lemma to_radix_length_bound b n k : 2 <= b -> 0 <= n -> (1 <= k)%nat ->
  n < b ^ Z.of_nat k -> (String.length (to_radix b n) <= k)%nat.
Proof. intros. unfold to_radix. apply to_radix_aux_length_bound; auto. Qed.

Lemma zeros_length k : String.length (zeros k) = k.
Proof. induction k; simpl; auto. Qed.

Lemma padStart0_length s k : (String.length s <= k)%nat ->
  String.length (padStart0 s k) = k.
Proof. intro H. unfold padStart0. rewrite str_length_app, zeros_length. lia. Qed.

Lemma digits_value_zeros b k s : 1 < b ->
  digits_value b 0 (zeros k ++ s) = digits_value b 0 s.
Proof.
  intro Hb. induction k as [|k IH]; simpl; [reflexivity|].
  unfold digit_val at 1. simpl.
  replace (0 <? b) with true by (symmetry; apply Z.ltb_lt; lia). exact IH.
Qed.

End JsFacts.

(* ================================================================== *)
(** * Derivation paths *)

Module PathFacts.
Import Js JsFacts Path.

Lemma forall_chars_impl (p q : ascii -> bool) s :
  (forall c, p c = true -> q c = true) ->
  forall_chars p s = true -> forall_chars q s = true.
Proof.
  intro Hpq. induction s as [|c s IH]; simpl; [auto|].
  intro H. apply andb_prop in H as [H1 H2]. now rewrite Hpq, IH.
Qed.

Lemma is_dec_digit_code c : is_dec_digit c = true ->
  (48 <= nat_of_ascii c <= 57)%nat.
Proof.
  unfold is_dec_digit. intro H. apply andb_prop in H as [H1 H2].
  apply Nat.leb_le in H1, H2. lia.
Qed.

Lemma dec_digit_char d : 0 <= d < 10 -> is_dec_digit (digit_char d) = true.
Proof.
  intro Hd. unfold is_dec_digit, digit_char.
  replace (d <? 10) with true by (symmetry; apply Z.ltb_lt; lia).
  rewrite Ascii.nat_ascii_embedding by lia.
  apply andb_true_intro; split; apply Nat.leb_le; lia.
Qed.

Lemma to_radix_dec_digits i :
  forall_chars is_dec_digit (to_radix 10 i) = true.
Proof.
  unfold to_radix. apply to_radix_aux_chars; [lia | | reflexivity].
  intros d Hd. now apply dec_digit_char.
Qed.

Lemma to_radix_nonempty b n : exists c r, to_radix b n = String c r.
Proof.
  unfold to_radix. rewrite to_radix_aux_S.
  destruct (n <? b); [eauto|].
  rewrite to_radix_aux_acc.
  destruct (to_radix_aux _ b (n / b) "") as [|c r]; simpl; eauto.
Qed.

Lemma dec_digit_val c : is_dec_digit c = true ->
  exists d, digit_val 10 c = Some d.
Proof.
  intro H. apply is_dec_digit_code in H. unfold digit_val.
  replace ((48 <=? Z.of_nat (nat_of_ascii c)) && (Z.of_nat (nat_of_ascii c) <=? 57))
    with true by (symmetry; apply andb_true_intro; split; apply Z.leb_le; lia).
  replace (Z.of_nat (nat_of_ascii c) - 48 <? 10) with true
    by (symmetry; apply Z.ltb_lt; lia).
  eauto.
Qed.

Lemma digits_value_prefix s a : forall_chars is_dec_digit s = true ->
  digits_value 10 a s = Some (prefix_value 10 a s).
Proof.
  revert a; induction s as [|c s IH]; intros a H; simpl; [reflexivity|].
  simpl in H. apply andb_prop in H as [Hc Hs].
  destruct (dec_digit_val c Hc) as [d Hd]. rewrite Hd. now apply IH.
Qed.

Lemma parseInt_dec c r : is_dec_digit c = true ->
  parseInt (String c r) 10 = Some (prefix_value 10 0 (String c r)).
Proof.
  intro Hc.
  destruct c as [[] [] [] [] [] [] [] []]; try discriminate Hc; reflexivity.
Qed.

Lemma parseInt_to_radix i : 0 <= i -> parseInt (to_radix 10 i) 10 = Some i.
Proof.
  intro Hi.
  pose proof (to_radix_value 10 i ltac:(lia) Hi) as Hv.
  pose proof (to_radix_dec_digits i) as Hd.
  destruct (to_radix_nonempty 10 i) as (c & r & Hcr). rewrite Hcr in *.
  simpl in Hd. apply andb_prop in Hd as [Hc _].
  rewrite parseInt_dec by exact Hc.
  rewrite digits_value_prefix in Hv by (simpl; rewrite Hc; simpl;
    pose proof (to_radix_dec_digits i) as H'; rewrite Hcr in H'; simpl in H';
    now apply andb_prop in H' as [_ H']).
  congruence.
Qed.

Lemma split_no_sep t :
  forall_chars (fun c => negb (Ascii.eqb c "/")) t = true -> split "/" t = [t].
Proof.
  induction t as [|c t IH]; simpl; [reflexivity|].
  intro H. apply andb_prop in H as [Hc Ht].
  apply negb_true_iff in Hc. rewrite Hc, IH by exact Ht. reflexivity.
Qed.

Lemma split_nonempty sep s : split sep s <> [].
Proof.
  destruct s as [|c s]; simpl; [discriminate|].
  destruct (Ascii.eqb c sep); [discriminate|].
  destruct (split sep s); discriminate.
Qed.

Lemma split_app_sep s t :
  forall_chars (fun c => negb (Ascii.eqb c "/")) t = true ->
  split "/" (s ++ String "/" t) = (split "/" s ++ [t])%list.
Proof.
  intro Ht. induction s as [|c s IH].
  - simpl. now rewrite split_no_sep.
  - simpl. rewrite IH.
    destruct (Ascii.eqb c "/"); [reflexivity|].
    pose proof (split_nonempty "/" s) as Hne.
    destruct (split "/" s); [contradiction | reflexivity].
Qed.

Lemma endsWith_quote_false s :
  forall_chars (fun c => negb (Ascii.eqb "'" c)) s = true ->
  endsWith_char s "'" = false.
Proof.
  induction s as [|c s IH]; simpl; [reflexivity|].
  intro H. apply andb_prop in H as [Hc Hs].
  destruct s as [|c' s']; [now apply negb_true_iff|].
  now apply IH.
Qed.

Lemma startsWith_root s : startsWith s "m/" = true ->
  exists rest, s = String "m" (String "/" rest).
Proof.
  destruct s as [|c1 [|c2 rest]]; cbn [startsWith]; try discriminate.
  - now rewrite andb_false_r.
  - intro H. apply andb_prop in H as [H1 H2]. apply andb_prop in H2 as [H2 _].
    apply Ascii.eqb_eq in H1, H2. subst. eauto.
Qed.

Lemma buildPath_success base z p : buildPath base (NInt z) = Some p ->
  startsWith base "m/" = true /\ 0 <= z /\
  p = base ++ "/" ++ to_radix 10 z /\ isValidPath p = true.
Proof.
  unfold buildPath, int_to_string.
  destruct (startsWith base "m/"); cbv beta iota zeta delta [negb]; [|discriminate].
  destruct (Z.ltb_spec z 0) as [Hz|Hz]; cbv beta iota zeta; [discriminate|].
  destruct (isValidPath (base ++ "/" ++ to_radix 10 z)) eqn:Hv;
    cbv beta iota zeta delta [negb]; [|discriminate].
  intro H. injection H as <-. auto.
Qed.

Lemma buildPath_number base x p : buildPath base x = Some p ->
  exists z, x = NInt z.
Proof.
  unfold buildPath. destruct (negb (startsWith base "m/")); [discriminate|].
  destruct x; [eauto | discriminate].
Qed.

End PathFacts.

Module PathClaims.
Import Js JsFacts Path PathFacts.

(** Claim C9: [buildPath("m/44'/60'/0'/0", 5)] is ["m/44'/60'/0'/0/5"], and
    for every valid base path and every index for which [buildPath]
    succeeds, [parsePath] of the result is [parsePath] of the base followed
    by one unhardened segment carrying the index. *)
Theorem buildPath_parsePath_roundtrip :
  buildPath "m/44'/60'/0'/0" (NInt 5) = Some "m/44'/60'/0'/0/5" /\
  forall base i p,
    isValidPath base = true -> buildPath base (NInt i) = Some p ->
    parsePath p =
    option_map (fun segs => (segs ++ [{| index := Some i; hardened := false |}])%list)
               (parsePath base).
Proof.
  split; [reflexivity|].
  intros base i p Hb Hbp.
  destruct (buildPath_success _ _ _ Hbp) as (Hs & Hi & -> & Hv).
  destruct (startsWith_root _ Hs) as [rest ->].
  unfold parsePath. rewrite Hv, Hb. cbn [negb option_map].
  cbn [slice_from String.append].
  rewrite split_app_sep.
  - rewrite map_app. cbn [map]. do 3 f_equal.
    unfold parse_part.
    rewrite endsWith_quote_false.
    + now rewrite parseInt_to_radix.
    + apply forall_chars_impl with (p := is_dec_digit); [|apply to_radix_dec_digits].
      intros c Hc. destruct (Ascii.eqb_spec "'" c) as [<-|]; [discriminate | reflexivity].
  - apply forall_chars_impl with (p := is_dec_digit); [|apply to_radix_dec_digits].
    intros c Hc. destruct (Ascii.eqb_spec c "/") as [->|]; [discriminate | reflexivity].
Qed.

(** Witness for C9: the round trip at the base path ["m/44'/60'/0'/0"] and
    index 5. *)
Lemma buildPath_parsePath_roundtrip_witness :
  isValidPath "m/44'/60'/0'/0" = true /\
  parsePath "m/44'/60'/0'/0/5" =
  option_map (fun segs => (segs ++ [{| index := Some 5; hardened := false |}])%list)
             (parsePath "m/44'/60'/0'/0").
Proof.
  split; [reflexivity|].
  apply (proj2 buildPath_parsePath_roundtrip); reflexivity.
Defined.

(** Claim C10: whenever [buildPath basePath index] returns a path instead of
    throwing, that path satisfies [isValidPath]. *)
Theorem buildPath_result_valid base x p :
  buildPath base x = Some p -> isValidPath p = true.
Proof.
  intro H. destruct (buildPath_number _ _ _ H) as [z ->].
  now destruct (buildPath_success _ _ _ H) as (_ & _ & _ & Hv).
Qed.

(** Witness for C10: [buildPath("m/44'/60'", 7)]. *)
Lemma buildPath_result_valid_witness :
  buildPath "m/44'/60'" (NInt 7) = Some "m/44'/60'/7" /\
  isValidPath "m/44'/60'/7" = true.
Proof.
  split; [reflexivity|].
  apply (buildPath_result_valid "m/44'/60'" (NInt 7)); reflexivity.
Defined.

End PathClaims.

(* ================================================================== *)
(** * Signatures *)

Module SigFacts.
Import Js JsFacts PathFacts Sig.

Lemma is_ws_code_false k : (48 <= k <= 122)%nat -> is_ws (ascii_of_nat k) = false.
Proof.
  intro Hk. unfold is_ws. rewrite Ascii.nat_ascii_embedding by lia.
  apply orb_false_intro.
  - apply andb_false_intro2. apply Nat.leb_gt. lia.
  - apply Nat.eqb_neq. lia.
Qed.

Lemma hex_digits_no_ws x :
  forall_chars (fun c => negb (is_ws c)) (to_radix 16 x) = true.
Proof.
  unfold to_radix. apply to_radix_aux_chars; [lia | | reflexivity].
  intros d Hd. unfold digit_char. apply negb_true_iff.
  destruct (Z.ltb_spec d 10); apply is_ws_code_false; lia.
Qed.

Lemma zeros_no_ws k : forall_chars (fun c => negb (is_ws c)) (zeros k) = true.
Proof. induction k; simpl; auto. Qed.

Lemma trim_end_id s : forall_chars (fun c => negb (is_ws c)) s = true -> trim_end s = s.
Proof.
  induction s as [|c s IH]; simpl; [reflexivity|].
  intro H. apply andb_prop in H as [Hc Hs]. rewrite IH by exact Hs.
  apply negb_true_iff in Hc.
  destruct s; [now rewrite Hc | reflexivity].
Qed.

Lemma BigInt_hex_prefix body : body <> "" ->
  forall_chars (fun c => negb (is_ws c)) body = true ->
  BigInt_of_string (String "0" (String "x" body)) = digits_value 16 0 body.
Proof.
  intros Hne Hws. unfold BigInt_of_string.
  change (trim_start (String "0" (String "x" body))) with (String "0" (String "x" body)).
  rewrite (trim_end_id (String "0" (String "x" body))) by exact Hws.
  destruct body as [|c r]; [contradiction | reflexivity].
Qed.

Lemma hex32_value x : 0 <= x -> BigInt_of_string (hex32 x) = Some x.
Proof.
  intro Hx. unfold hex32. cbn [String.append].
  rewrite BigInt_hex_prefix.
  - unfold padStart0. rewrite digits_value_zeros by lia. apply to_radix_value; lia.
  - destruct (to_radix_nonempty 16 x) as (c & r0 & Hcr).
    unfold padStart0. rewrite Hcr. destruct (zeros _); discriminate.
  - unfold padStart0. rewrite forall_chars_app, zeros_no_ws, hex_digits_no_ws.
    reflexivity.
Qed.

Lemma fromNumber_32 x : 0 <= x <= maxUint256 -> fromNumber_sized x 32 = Some (hex32 x).
Proof.
  intro Hx. unfold fromNumber_sized, hex32, maxUint256 in *.
  replace ((x <? 0) || (x >? 2 ^ (8 * Z.of_nat 32) - 1)) with false; [reflexivity|].
  symmetry. apply orb_false_intro; [apply Z.ltb_ge | rewrite Z.gtb_ltb; apply Z.ltb_ge]; simpl; lia.
Qed.

Lemma hex32_length x : 0 <= x <= maxUint256 -> String.length (hex32 x) = 66%nat.
Proof.
  intro Hx. unfold hex32. cbn [String.append String.length].
  rewrite padStart0_length; [reflexivity|].
  apply to_radix_length_bound; try lia.
  unfold maxUint256 in Hx. simpl. lia.
Qed.

Lemma normalizeS_cases s0 :
  normalizeS s0 = None \/
  (exists x, BigInt_of_string s0 = Some x /\ x <= halfOrder /\ normalizeS s0 = Some s0) \/
  (exists x, BigInt_of_string s0 = Some x /\ halfOrder < x <= curveOrder /\
             normalizeS s0 = Some (hex32 (curveOrder - x))).
Proof.
  unfold normalizeS. fold halfOrder.
  destruct (BigInt_of_string s0) as [x|]; [|now left].
  destruct (Z.gtb_spec x halfOrder) as [Hgt|Hle].
  - destruct (Z.leb_spec x curveOrder) as [Hc|Hc].
    + right; right. exists x. split; [reflexivity|]. split; [lia|].
      assert (0 < halfOrder) by (vm_compute; reflexivity).
      apply fromNumber_32. unfold maxUint256, curveOrder in *. lia.
    + left. unfold fromNumber_sized.
      replace ((curveOrder - x <? 0)) with true by (symmetry; apply Z.ltb_lt; lia).
      reflexivity.
  - right; left. exists x. auto.
Qed.

Lemma hex32_low_fixed x : 0 <= x <= halfOrder -> normalizeS (hex32 x) = Some (hex32 x).
Proof.
  intro Hx. unfold normalizeS. fold halfOrder. rewrite hex32_value by lia.
  replace (x >? halfOrder) with false by (symmetry; rewrite Z.gtb_ltb; apply Z.ltb_ge; lia).
  reflexivity.
Qed.

Lemma concat_two_digit_length (f : Byte.byte -> string) bs :
  (forall b, String.length (f b) = 2%nat) ->
  String.length (String.concat "" (map f bs)) = (2 * List.length bs)%nat.
Proof.
  intro Hf. induction bs as [|b bs IH]; [reflexivity|].
  destruct bs as [|b' bs].
  - cbn [map String.concat List.length]. rewrite Hf. reflexivity.
  - change (String.concat "" (map f (b :: b' :: bs)))
      with (f b ++ "" ++ String.concat "" (map f (b' :: bs))).
    rewrite str_length_app, Hf. cbn [String.append]. rewrite IH.
    cbn [List.length]. lia.
Qed.

Lemma fromBytes_length bs : String.length (fromBytes bs) = (2 + 2 * List.length bs)%nat.
Proof.
  unfold fromBytes. cbn [String.append String.length].
  rewrite concat_two_digit_length; [reflexivity|].
  intro b. apply padStart0_length, to_radix_length_bound; unfold byte_val; try lia.
  pose proof (Byte.to_N_bounded b) as Hbd. simpl. lia.
Qed.

End SigFacts.

Module SigClaims.
Import Js JsFacts Sig SigFacts.

(** Claim C5: for every non-negative [v], [normalizeV] adds 27 to 0 and 1,
    keeps 27 and 28, keeps every [v >= 35], and maps the remaining values
    ([2..26] and [29..34]) to [(v mod 2) + 27]. *)
Theorem normalizeV_four_way (v0 : Z) : 0 <= v0 ->
  ((v0 = 0 \/ v0 = 1) -> normalizeV v0 = v0 + 27) /\
  ((v0 = 27 \/ v0 = 28) -> normalizeV v0 = v0) /\
  (35 <= v0 -> normalizeV v0 = v0) /\
  ((2 <= v0 <= 26 \/ 29 <= v0 <= 34) -> normalizeV v0 = v0 mod 2 + 27).
Proof.
  intro Hv. unfold normalizeV.
  rewrite Z.rem_mod_nonneg by lia.
  destruct (Z.eqb_spec v0 0), (Z.eqb_spec v0 1), (Z.eqb_spec v0 27),
           (Z.eqb_spec v0 28), (Z.geb_spec v0 35); simpl; repeat split; intros; lia.
Qed.

(** Witness for C5: [v = 37] is kept. *)
Lemma normalizeV_four_way_witness : 0 <= 37 /\ normalizeV 37 = 37.
Proof.
  split; [lia|].
  apply (proj1 (proj2 (proj2 (normalizeV_four_way 37 ltac:(lia))))). lia.
Defined.

(** Claim C6: [normalizeS] is idempotent (a second application gives the
    result of the first, including when the first throws), every value it
    returns represents an integer [<= n/2], and for
    [s = 0xFFFFFFFFFFFFFFFFFFFFFFFFFFFFFFFEBAAEDCE6AF48A03BBFD25E8CD0364140]
    the result represents a strictly smaller integer. *)
Theorem normalizeS_idempotent_low (s0 : string) :
  (match normalizeS s0 with Some s1 => normalizeS s1 | None => None end) = normalizeS s0 /\
  (match normalizeS s0 with
   | Some s1 => exists x, BigInt_of_string s1 = Some x /\ x <= curveOrder / 2
   | None => True
   end) /\
  (let hi := "0xFFFFFFFFFFFFFFFFFFFFFFFFFFFFFFFEBAAEDCE6AF48A03BBFD25E8CD0364140" in
   match BigInt_of_string hi, normalizeS hi with
   | Some x, Some out =>
       match BigInt_of_string out with Some y => y < x | None => False end
   | _, _ => False
   end).
Proof.
  split; [|split].
  - destruct (normalizeS_cases s0) as [H|[(x & Hx & Hle & H)|(x & Hx & Hgt & H)]];
      rewrite H; [reflexivity | exact H |].
    apply hex32_low_fixed.
    assert (halfOrder = curveOrder / 2) by reflexivity.
    assert (curveOrder = 2 * halfOrder + 1) by (vm_compute; reflexivity). lia.
  - destruct (normalizeS_cases s0) as [H|[(x & Hx & Hle & H)|(x & Hx & Hgt & H)]];
      rewrite H; [exact I | eauto |].
    exists (curveOrder - x). rewrite hex32_value by lia. split; [reflexivity|].
    assert (curveOrder = 2 * halfOrder + 1) by (vm_compute; reflexivity).
    fold halfOrder. lia.
  - vm_compute. reflexivity.
Qed.

(** Claim C2, counterexample: with the 32-byte [r = 0xabab..ab],
    [s = 0xcdcd..cd] and the chain-protected [v = 37], the output does not
    end in the byte 37 ([25]); it ends in [1b] (27). *)
Lemma serializeSignature_v37_counterexample :
  let c := {| r := "0x" ++ repeat_str "ab" 32; s := "0x" ++ repeat_str "cd" 32; v := 37 |} in
  serializeSignature c <> Some ("0x" ++ repeat_str "ab" 32 ++ repeat_str "cd" 32 ++ "25") /\
  serializeSignature c = Some ("0x" ++ repeat_str "ab" 32 ++ repeat_str "cd" 32 ++ "1b").
Proof. vm_compute. split; [discriminate | reflexivity]. Qed.

(** Claim C2 (amended): when [r] and [s] parse as integers in
    [0, 2^256 - 1], [serializeSignature] returns [0x] followed by 130 hex
    digits: [r] and [s] as 64 lower-case digits each, then [1c] (28) when
    [v = 28] or [v] is even and [1b] (27) otherwise, so [v] itself is
    reproduced only for [v] in {27, 28}. *)
Theorem serializeSignature_layout r0 s0 rv sv v0 :
  BigInt_of_string r0 = Some rv -> 0 <= rv <= maxUint256 ->
  BigInt_of_string s0 = Some sv -> 0 <= sv <= maxUint256 ->
  serializeSignature {| r := r0; s := s0; v := v0 |} = Some (serialized_layout rv sv v0) /\
  String.length (serialized_layout rv sv v0) = 132%nat.
Proof.
  intros Hr Hrv Hs Hsv. split.
  - unfold serializeSignature, serialized_layout. cbn [r s v]. rewrite Hr, Hs.
    unfold ox_signature_toHex.
    replace ((rv <? 0) || (rv >? maxUint256)) with false
      by (symmetry; apply orb_false_intro; [apply Z.ltb_ge | rewrite Z.gtb_ltb; apply Z.ltb_ge]; lia).
    replace ((sv <? 0) || (sv >? maxUint256)) with false
      by (symmetry; apply orb_false_intro; [apply Z.ltb_ge | rewrite Z.gtb_ltb; apply Z.ltb_ge]; lia).
    rewrite !fromNumber_32 by lia.
    destruct ((v0 =? 28) || (Z.rem v0 2 =? 0)); reflexivity.
  - unfold serialized_layout. cbn [String.append String.length].
    rewrite !str_length_app.
    pose proof (hex32_length rv Hrv) as H1. pose proof (hex32_length sv Hsv) as H2.
    unfold hex32 in H1, H2. cbn [String.append String.length] in H1, H2.
    destruct ((v0 =? 28) || (Z.rem v0 2 =? 0)); simpl String.length; lia.
Qed.

(** Witness for the amended C2: the test vector [r = 0xabab..ab],
    [s = 0xcdcd..cd], [v = 28]. *)
Lemma serializeSignature_layout_witness :
  serializeSignature {| r := "0x" ++ repeat_str "ab" 32; s := "0x" ++ repeat_str "cd" 32;
                        v := 28 |} =
  Some (serialized_layout 0xabababababababababababababababababababababababababababababababab
                          0xcdcdcdcdcdcdcdcdcdcdcdcdcdcdcdcdcdcdcdcdcdcdcdcdcdcdcdcdcdcdcdcd 28).
Proof.
  apply (serializeSignature_layout _ _ _ _ 28);
    [vm_compute; reflexivity | unfold maxUint256; lia
    | vm_compute; reflexivity | unfold maxUint256; lia].
Defined.

(** Claim C7, counterexample: the hex string ["0x01"] and the 32-byte
    sequence [00..01] denote the same value 1, yet [parseSignatureBytes]
    returns different components for them, and the hex form is not widened
    to 32 bytes (its [r] has 4 characters, not 66). *)
Lemma parseSignatureBytes_unpadded_counterexample :
  let one32 := (List.repeat Byte.x00 31 ++ [Byte.x01])%list in
  BigInt_of_string "0x01" = Some 1 /\
  BigInt_of_string (fromBytes one32) = Some 1 /\
  parseSignatureBytes (HexStr "0x01") (HexStr "0x01") 27 <>
  parseSignatureBytes (RawBytes one32) (RawBytes one32) 27 /\
  String.length (r (parseSignatureBytes (HexStr "0x01") (HexStr "0x01") 27)) <> 66%nat.
Proof. vm_compute. repeat split; discriminate. Qed.

(** Claim C7 (amended): a hex-string [r]/[s] is passed through verbatim; a
    byte sequence becomes [0x] followed by two lower-case hex digits per
    byte, without padding to 32 bytes; so the two forms give identical
    components exactly when the string is that rendering of the bytes. *)
Theorem parseSignatureBytes_forms :
  (forall r0 s0 v0,
     parseSignatureBytes (HexStr r0) (HexStr s0) v0 =
     {| r := r0; s := s0; v := normalizeV v0 |}) /\
  (forall rb sb v0,
     parseSignatureBytes (RawBytes rb) (RawBytes sb) v0 =
     {| r := fromBytes rb; s := fromBytes sb; v := normalizeV v0 |} /\
     String.length (fromBytes rb) = (2 + 2 * List.length rb)%nat) /\
  (forall r0 s0 rb sb v0,
     parseSignatureBytes (HexStr r0) (HexStr s0) v0 =
     parseSignatureBytes (RawBytes rb) (RawBytes sb) v0 <->
     r0 = fromBytes rb /\ s0 = fromBytes sb).
Proof.
  split; [reflexivity|]. split.
  - intros. split; [reflexivity | apply fromBytes_length].
  - intros r0 s0 rb sb v0. unfold parseSignatureBytes. split.
    + intro H. injection H as H1 H2. auto.
    + intros [-> ->]. reflexivity.
Qed.

End SigClaims.

(* ================================================================== *)
(** * Error classification *)

Module ErrorClaims.
Import Js Errors.

(** Claim C3 (code defect): [mapLedgerError] and [mapTrezorError] read
    [error.message] before any check, so a [null] or [undefined] fault makes
    them throw a [TypeError]; already classified errors are returned as
    they are. *)
Theorem classifiers_throw_on_null :
  mapLedgerError JNull = ThrowsTypeError /\
  mapLedgerError JUndefined = ThrowsTypeError /\
  mapTrezorError JNull = ThrowsTypeError /\
  mapTrezorError JUndefined = ThrowsTypeError /\
  (forall e, mapLedgerError (JHwErr e) = Returns e /\ mapTrezorError (JHwErr e) = Returns e).
Proof. repeat split. Qed.

Lemma mapLedgerError_no_status fs msg :
  assoc "message" fs = JStr msg ->
  (forall z, assoc "statusCode" fs = JNum z -> ~ In z ledger_status_codes) ->
  mapLedgerError (JObj fs) = Returns (ledger_heuristics msg (assoc "name" fs)).
Proof.
  intros Hm Hs. unfold mapLedgerError, get. rewrite Hm. cbn [coalesce].
  destruct (assoc "statusCode" fs) eqn:Hsc; try reflexivity.
  specialize (Hs z eq_refl). unfold ledger_status_codes in Hs. cbn [In] in Hs.
  repeat match goal with
         | |- context [z =? ?k] =>
             replace (z =? k) with false by (symmetry; apply Z.eqb_neq; intro; apply Hs; lia)
         end.
  reflexivity.
Qed.

(** Claim C4, counterexample: a fault whose message is ["DENIED"] is not
    recognised as a rejection; it becomes an [UNKNOWN_ERROR]. *)
Lemma mapLedgerError_uppercase_counterexample :
  mapLedgerError (JObj [("message", JStr "DENIED")]) =
    Returns (plain_error "DENIED" "UNKNOWN_ERROR") /\
  mapLedgerError (JObj [("message", JStr "DENIED")]) <>
    Returns (UserRejectedError "signature").
Proof. split; [reflexivity | discriminate]. Qed.

(** Claim C4 (amended): when no status code matches, [mapLedgerError]
    applies case-sensitive substring tests to the message, in this order:
    ["0x6985"], ["denied"] or ["rejected"] gives [UserRejectedError];
    otherwise ["locked"], ["pin"] or ["0x6faa"] in any letter case gives
    [DeviceLockedError]; otherwise ["not found"], ["no device"] or the name
    [TransportOpenUserCancelled] gives [DeviceNotFoundError]; otherwise
    ["app"] together with ["open"] or ["launch"] gives [AppNotOpenError];
    anything else is an [UNKNOWN_ERROR] carrying the message. *)
Theorem mapLedgerError_message_heuristics fs msg :
  assoc "message" fs = JStr msg ->
  (forall z, assoc "statusCode" fs = JNum z -> ~ In z ledger_status_codes) ->
  let o := mapLedgerError (JObj fs) in
  let rej := includes msg "0x6985" || includes msg "denied" || includes msg "rejected" in
  let lck := includes msg "locked" || includes msg "pin" ||
             includes (toLowerCase msg) "0x6faa" in
  let nf := includes msg "not found" || includes msg "no device" ||
            (match assoc "name" fs with
             | JStr n => String.eqb n "TransportOpenUserCancelled"
             | _ => false end) in
  let app := includes msg "app" && (includes msg "open" || includes msg "launch") in
  (rej = true -> o = Returns (UserRejectedError "signature")) /\
  (rej = false -> lck = true -> o = Returns (DeviceLockedError true)) /\
  (rej = false -> lck = false -> nf = true ->
     o = Returns (DeviceNotFoundError true (JStr msg))) /\
  (rej = false -> lck = false -> nf = false -> app = true -> o = Returns AppNotOpenError) /\
  (rej = false -> lck = false -> nf = false -> app = false ->
     o = Returns (plain_error msg "UNKNOWN_ERROR")).
Proof.
  intros Hm Hs o rej lck nf app. unfold o.
  rewrite (mapLedgerError_no_status fs msg Hm Hs).
  unfold ledger_heuristics. fold rej lck nf app.
  repeat split; intros; repeat match goal with H : _ = _ |- _ => rewrite H end; reflexivity.
Qed.

(** Witness for the amended C4: the message of the test suite,
    ["Transaction was denied by user"], without a status code. *)
Lemma mapLedgerError_message_heuristics_witness :
  mapLedgerError (JObj [("message", JStr "Transaction was denied by user")]) =
  Returns (UserRejectedError "signature").
Proof.
  apply (proj1 (mapLedgerError_message_heuristics
                  [("message", JStr "Transaction was denied by user")]
                  "Transaction was denied by user" eq_refl
                  (fun z H => ltac:(discriminate H)))).
  reflexivity.
Defined.

End ErrorClaims.

(* ================================================================== *)
(** * Connection state machine *)

Module DeviceClaims.
Import Errors Device.

Lemma register_fold ls m :
  NoDup m.(listeners) ->
  let m' := fold_left (fun m l => onStateChange l m) ls m in
  m'.(state) = m.(state) /\ m'.(transport) = m.(transport) /\
  NoDup m'.(listeners) /\
  (forall l, In l m'.(listeners) <-> In l m.(listeners) \/ In l ls).
Proof.
  revert m. induction ls as [|x ls IH]; intros m Hnd; simpl.
  - repeat split; auto; intros [H|[]]; exact H.
  - destruct (IH (onStateChange x m)) as (H1 & H2 & H3 & H4).
    { unfold onStateChange; simpl.
      destruct (existsb (Nat.eqb x) (listeners m)) eqn:E; [exact Hnd|].
      apply NoDup_app; [exact Hnd | apply NoDup_cons; [intros []| apply NoDup_nil] |].
      intros y Hy [->|[]].
      assert (existsb (Nat.eqb y) (listeners m) = true)
        by (apply existsb_exists; exists y; split; [exact Hy | apply Nat.eqb_refl]).
      congruence. }
    repeat split; auto.
    + intro Hl. apply H4 in Hl. unfold onStateChange in Hl; simpl in Hl.
      destruct (existsb (Nat.eqb x) (listeners m)) eqn:E.
      * destruct Hl as [Hl|Hl]; auto.
      * destruct Hl as [Hl|Hl]; auto.
        apply in_app_or in Hl as [Hl|[<-|[]]]; auto.
    + intro Hl. apply H4. unfold onStateChange; simpl.
      destruct (existsb (Nat.eqb x) (listeners m)) eqn:E.
      * destruct Hl as [Hl|[<-|Hl]]; auto.
        left. apply existsb_exists in E as (y & Hy & Hxy).
        apply Nat.eqb_eq in Hxy. now subst.
      * destruct Hl as [Hl|[<-|Hl]]; auto.
        left. apply in_or_app. auto.
        left. apply in_or_app. right. left. reflexivity.
Qed.

Lemma filter_one (L : list listener) (st : ConnectionState) l :
  NoDup L -> In l L ->
  filter (fun x => Nat.eqb (who x) l)
    (map (fun l' => {| who := l'; notified := st; fault := None; observed := st |}) L) =
  [{| who := l; notified := st; fault := None; observed := st |}].
Proof.
  induction L as [|y L IH]; intros Hnd Hin; [destruct Hin|].
  inversion Hnd as [|? ? Hy HndL]; subst. simpl.
  destruct Hin as [<-|Hin].
  - rewrite Nat.eqb_refl. f_equal.
    clear IH HndL Hnd. revert Hy.
    induction L as [|z L IHL]; intro Hy; [reflexivity|]. simpl.
    destruct (Nat.eqb_spec z y) as [->|]; [exfalso; apply Hy; now left|].
    apply IHL. intro; apply Hy; now right.
  - destruct (Nat.eqb_spec y l) as [->|]; [contradiction|]. now apply IH.
Qed.

(** Claim C8: for a manager created in the [disconnected] state with any
    listeners registered through [onStateChange], a successful [connect()]
    followed by [disconnect()] makes exactly the listener calls
    ['connecting'], ['connected'], ['disconnected'], each transition calling
    every registered listener once in registration order; each listener sees
    exactly that sequence, and at every call the public [state] already
    equals the notified state. *)
Theorem connect_disconnect_notifications (ls : list listener) :
  let m0 := register_all ls in
  let '(m2, log, res) := connect_then_disconnect VendorOk m0 in
  res = Resolved /\ m2.(state) = disconnected /\
  NoDup m0.(listeners) /\ (forall l, In l m0.(listeners) <-> In l ls) /\
  log = flat_map (fun st => map (fun l => {| who := l; notified := st; fault := None;
                                             observed := st |}) m0.(listeners))
                 [connecting; connected; disconnected] /\
  (forall l, In l m0.(listeners) ->
     map notified (filter (fun x => Nat.eqb (who x) l) log) =
     [connecting; connected; disconnected]) /\
  (forall x, In x log -> x.(observed) = x.(notified)).
Proof.
  cbv zeta.
  destruct (register_fold ls createLedgerDeviceManager (NoDup_nil _))
    as (Hst & Htr & Hnd & Hin).
  fold (register_all ls) in *.
  unfold connect_then_disconnect, connect.
  rewrite Hst, Htr. cbn -[map flat_map register_all].
  repeat split; auto.
  - intro Hl. apply Hin in Hl as [[]|Hl]. exact Hl.
  - intro Hl. apply Hin. now right.
  - cbn [flat_map]. rewrite app_nil_r, app_assoc. reflexivity.
  - intros l Hl. rewrite !filter_app, !map_app.
    rewrite !filter_one by assumption. reflexivity.
  - intros x Hx. apply in_app_or in Hx as [Hx|Hx]; [apply in_app_or in Hx as [Hx|Hx]|];
      apply in_map_iff in Hx as (l & <- & _); reflexivity.
Qed.

End DeviceClaims.

(* ================================================================== *)
(** * RLP encoding *)

Module RlpClaims.
Import Js Rlp.

(** Claim C1 (code defect): for a 256-byte string the length [256] prints
    as ["100"] (three hex digits), so the string branch of [rlpEncode]
    computes [lenBytes = 3/2 + 1 = 2.5] and emits the prefix ["b9.8"] and
    the padded length ["00100"], instead of the byte [b9] and the two bytes
    [0100] that the RLP rule prescribes.  The list branch, which rounds with
    [Math.ceil], produces [f9 0100] for a 256-byte payload. *)
Theorem rlpEncode_256_byte_string :
  let bs := List.repeat Byte.x00 256 in
  rlpEncode (RStr (Sig.fromBytes bs)) = "0xb9.800100" ++ slice_from 2 (Sig.fromBytes bs) /\
  rlp_long_string_rule bs = "0xb90100" ++ slice_from 2 (Sig.fromBytes bs) /\
  rlpEncode (RStr (Sig.fromBytes bs)) <> rlp_long_string_rule bs /\
  rlpEncode (RList (List.repeat (RStr "0x01") 256)) = "0xf90100" ++ repeat_str "01" 256.
Proof.
  vm_compute. split; [reflexivity|]. split; [reflexivity|]. split; [discriminate|].
  reflexivity.
Qed.

End RlpClaims.

(* ================================================================== *)
(** * Further facts about digits, prefixes and substrings *)

Module DigitFacts.
Import Js JsFacts PathFacts.

Lemma digit_val_range b c d : digit_val b c = Some d -> 0 <= d < b.
Proof.
  unfold digit_val.
  set (n := Z.of_nat (nat_of_ascii c)).
  destruct ((48 <=? n) && (n <=? 57)) eqn:E1;
    [|destruct ((97 <=? n) && (n <=? 122)) eqn:E2;
      [|destruct ((65 <=? n) && (n <=? 90)) eqn:E3]];
    cbv iota beta; try discriminate;
    match goal with |- (if ?x <? b then _ else _) = _ -> _ =>
      destruct (Z.ltb_spec x b) end;
    intro Heq; try discriminate; injection Heq as <-;
    repeat match goal with H : _ && _ = true |- _ => apply andb_prop in H as [? ?] end;
    rewrite ?Z.leb_le in *; lia.
Qed.

Lemma digits_value_bounds b : 2 <= b -> forall s acc n, 0 <= acc ->
  digits_value b acc s = Some n ->
  acc * b ^ Z.of_nat (String.length s) <= n < (acc + 1) * b ^ Z.of_nat (String.length s).
Proof.
  intros Hb s. induction s as [|c s IH]; intros acc n Hacc H; simpl in H.
  - injection H as <-. simpl. lia.
  - destruct (digit_val b c) as [d|] eqn:Hd; [|discriminate].
    apply digit_val_range in Hd.
    apply IH in H; [|nia].
    cbn [String.length]. rewrite Nat2Z.inj_succ, Z.pow_succ_r by lia.
    set (P := b ^ Z.of_nat (String.length s)) in *.
    assert (0 < P) by (apply Z.pow_pos_nonneg; lia).
    nia.
Qed.

Lemma to_radix_length_lower b n k : 2 <= b <= 36 -> b ^ Z.of_nat k <= n ->
  (k < String.length (to_radix b n))%nat.
Proof.
  intros Hb Hk.
  assert (Hn : 0 <= n) by (pose proof (Z.pow_nonneg b (Z.of_nat k)); lia).
  pose proof (digits_value_bounds b ltac:(lia) _ 0 n ltac:(lia) (to_radix_value b n Hb Hn)).
  destruct (Nat.lt_ge_cases k (String.length (to_radix b n))) as [|Hle]; [auto|].
  exfalso.
  assert (b ^ Z.of_nat (String.length (to_radix b n)) <= b ^ Z.of_nat k)
    by (apply Z.pow_le_mono_r; lia).
  lia.
Qed.

Lemma to_radix_first b n : 2 <= b <= 36 -> 0 < n ->
  exists c rest, to_radix b n = String c rest /\ c <> "0"%char.
Proof.
  intros Hb Hn. destruct (to_radix_nonempty b n) as (c & rest & E).
  exists c, rest. split; [exact E|]. intros ->.
  pose proof (to_radix_value b n Hb ltac:(lia)) as Hv. rewrite E in Hv.
  pose proof (digit_val_char b 0 Hb ltac:(lia)) as H0.
  change (digit_char 0) with "0"%char in H0.
  cbn [digits_value] in Hv. rewrite H0 in Hv. cbn [Z.mul Z.add] in Hv.
  pose proof (digits_value_bounds b ltac:(lia) _ 0 n ltac:(lia) Hv) as Hbd.
  destruct (String.length rest) as [|L] eqn:HL.
  - simpl in Hbd. lia.
  - pose proof (to_radix_length_bound b n (S L) ltac:(lia) ltac:(lia) ltac:(lia)
                  ltac:(lia)) as Hlen.
    rewrite E in Hlen. cbn [String.length] in Hlen. lia.
Qed.

Lemma startsWith_app s p t : startsWith s p = true -> startsWith (s ++ t) p = true.
Proof.
  revert s; induction p as [|c p IH]; intros [|d s] H.
  - destruct t; reflexivity.
  - reflexivity.
  - discriminate H.
  - change (String d s ++ t) with (String d (s ++ t)).
    cbn [startsWith] in *. apply andb_prop in H as [H1 H2]. now rewrite H1, IH.
Qed.

Lemma startsWith_self p t : startsWith (p ++ t) p = true.
Proof.
  induction p as [|c p IH]; cbn [startsWith String.append]; [now destruct t|].
  now rewrite Ascii.eqb_refl, IH.
Qed.

Lemma includes_any_empty s : includes s "" = true.
Proof. destruct s; reflexivity. Qed.

Lemma includes_app_r a b p : includes b p = true -> includes (a ++ b) p = true.
Proof.
  induction a as [|c a IH]; intro H; [exact H|].
  cbn [String.append includes]. rewrite IH by exact H. apply orb_true_r.
Qed.

Lemma includes_app_l a b p : includes a p = true -> includes (a ++ b) p = true.
Proof.
  induction a as [|c a IH]; intro H.
  - destruct p; [apply includes_any_empty | discriminate].
  - cbn [String.append includes] in *. apply orb_prop in H as [H|H].
    + change (String c (a ++ b)) with (String c a ++ b).
      now rewrite startsWith_app.
    + rewrite IH by exact H. apply orb_true_r.
Qed.

Lemma includes_of_startsWith s p : startsWith s p = true -> includes s p = true.
Proof. intro H. destruct s; cbn [includes]; now rewrite H. Qed.

Lemma includes_self p t : includes (p ++ t) p = true.
Proof. apply includes_of_startsWith, startsWith_self. Qed.

Lemma includes_concat x l p : In x l -> includes x p = true ->
  includes (String.concat "" l) p = true.
Proof.
  induction l as [|y l IH]; intros Hin Hx; [destruct Hin|].
  destruct Hin as [->|Hin].
  - destruct l; [exact Hx|]. cbn [String.concat]. now apply includes_app_l.
  - destruct l as [|z l]; [destruct Hin|].
    cbn [String.concat]. apply includes_app_r. cbn [String.append]. now apply IH.
Qed.

End DigitFacts.

(* ================================================================== *)
(** * Signature validity, low-s normalisation and recovery parity *)

Module SigCheckFacts.
Import Js JsFacts SigFacts Sig SigCheck.

Lemma curveOrder_half : curveOrder = 2 * halfOrder + 1.
Proof. vm_compute. reflexivity. Qed.

Lemma curveOrder_max : curveOrder <= maxUint256.
Proof. vm_compute. discriminate. Qed.

Lemma isValidSignature_spec c : isValidSignature c = true <->
  String.length c.(r) = 66%nat /\ String.length c.(s) = 66%nat /\
  exists rv sv, BigInt_of_string c.(r) = Some rv /\ BigInt_of_string c.(s) = Some sv /\
                rv <> 0 /\ rv < curveOrder /\ sv <> 0 /\ sv < curveOrder.
Proof.
  unfold isValidSignature.
  destruct (Nat.eqb_spec (String.length c.(r)) 66) as [Hl1|Hl1];
    [|split; [discriminate | intros (? & _); contradiction]].
  destruct (Nat.eqb_spec (String.length c.(s)) 66) as [Hl2|Hl2];
    [|split; [discriminate | intros (_ & ? & _); contradiction]].
  cbn [andb negb].
  destruct (BigInt_of_string c.(r)) as [rv|];
    [|split; [discriminate | intros (_ & _ & rv & sv & ? & _); discriminate]].
  destruct (BigInt_of_string c.(s)) as [sv|];
    [|split; [discriminate | intros (_ & _ & rv' & sv & _ & ? & _); discriminate]].
  split.
  - destruct (Z.eqb_spec rv 0); [discriminate|].
    destruct (Z.geb_spec rv curveOrder); [discriminate|].
    destruct (Z.eqb_spec sv 0); [discriminate|].
    destruct (Z.geb_spec sv curveOrder); [discriminate|].
    intros _. split; [exact Hl1|]. split; [exact Hl2|].
    exists rv, sv. split; [reflexivity|]. split; [reflexivity|]. lia.
  - intros (_ & _ & rv' & sv' & Hr & Hs & Hrv & Hrn & Hsv & Hsn).
    injection Hr as <-. injection Hs as <-.
    replace (rv =? 0) with false by (symmetry; apply Z.eqb_neq; lia).
    replace (rv >=? curveOrder) with false by (symmetry; rewrite Z.geb_leb; apply Z.leb_gt; lia).
    replace (sv =? 0) with false by (symmetry; apply Z.eqb_neq; lia).
    replace (sv >=? curveOrder) with false by (symmetry; rewrite Z.geb_leb; apply Z.leb_gt; lia).
    reflexivity.
Qed.

End SigCheckFacts.

Module SigExtra.
Import Js JsFacts SigFacts Sig SigCheck SigCheckFacts.

Lemma serializeSignature_eq r0 s0 rv sv v0 :
  BigInt_of_string r0 = Some rv -> 0 <= rv <= maxUint256 ->
  BigInt_of_string s0 = Some sv -> 0 <= sv <= maxUint256 ->
  serializeSignature {| r := r0; s := s0; v := v0 |} = Some (serialized_layout rv sv v0).
Proof.
  intros Hr Hrv Hs Hsv.
  unfold serializeSignature, serialized_layout. cbn [r s v]. rewrite Hr, Hs.
  unfold ox_signature_toHex.
  replace ((rv <? 0) || (rv >? maxUint256)) with false
    by (symmetry; apply orb_false_intro; [apply Z.ltb_ge | rewrite Z.gtb_ltb; apply Z.ltb_ge]; lia).
  replace ((sv <? 0) || (sv >? maxUint256)) with false
    by (symmetry; apply orb_false_intro; [apply Z.ltb_ge | rewrite Z.gtb_ltb; apply Z.ltb_ge]; lia).
  rewrite !fromNumber_32 by lia.
  destruct ((v0 =? 28) || (Z.rem v0 2 =? 0)); reflexivity.
Qed.

Lemma serializeSignature_parity r0 s0 v1 v2 :
  ((v1 =? 28) || (Z.rem v1 2 =? 0)) = ((v2 =? 28) || (Z.rem v2 2 =? 0)) ->
  serializeSignature {| r := r0; s := s0; v := v1 |} =
  serializeSignature {| r := r0; s := s0; v := v2 |}.
Proof. intro H. unfold serializeSignature. cbn [r s v]. now rewrite H. Qed.

(** The two branches of [normalizeS] on a component that passed
    [isValidSignature]. *)
Lemma normalizeS_valid_cases c :
  isValidSignature c = true ->
  exists sv, BigInt_of_string c.(s) = Some sv /\ sv <> 0 /\ sv < curveOrder /\
    ((sv <= halfOrder /\ normalizeS c.(s) = Some c.(s)) \/
     (halfOrder < sv /\ normalizeS c.(s) = Some (hex32 (curveOrder - sv)))).
Proof.
  intro H. apply isValidSignature_spec in H as (_ & _ & rv & sv & _ & Hs & _ & _ & Hs0 & Hsn).
  exists sv. split; [exact Hs|]. split; [exact Hs0|]. split; [exact Hsn|].
  pose proof curveOrder_half. pose proof curveOrder_max.
  unfold normalizeS. fold halfOrder. rewrite Hs.
  destruct (Z.gtb_spec sv halfOrder) as [Hgt|Hle].
  - right. split; [lia|]. apply fromNumber_32. lia.
  - left. auto.
Qed.



(** On a valid signature whose [r] and [s] are non-negative,
    [toViemSignature] returns [0x], [r] in 64 hex digits, [min(s, n - s)] in
    64 hex digits and the recovery byte. *)
Theorem toViemSignature_valid_layout (c : SignatureComponents) rv sv :
  isValidSignature c = true ->
  BigInt_of_string c.(r) = Some rv -> BigInt_of_string c.(s) = Some sv ->
  0 < rv -> 0 < sv ->
  toViemSignature c = Some (serialized_layout rv (Z.min sv (curveOrder - sv)) c.(v)).
Proof.
  intros Hval Hr Hs Hrp Hsp.
  pose proof Hval as Hval'.
  apply isValidSignature_spec in Hval' as (_ & _ & rv' & sv' & Hr' & Hs' & _ & Hrn & _ & Hsn).
  rewrite Hr in Hr'. injection Hr' as <-. rewrite Hs in Hs'. injection Hs' as <-.
  pose proof curveOrder_half. pose proof curveOrder_max.
  destruct (normalizeS_valid_cases c Hval) as (sv' & Hs' & _ & _ & [[Hle Hn]|[Hgt Hn]]);
    rewrite Hs in Hs'; injection Hs' as <-;
    unfold toViemSignature; rewrite Hn.
  - rewrite Z.min_l by lia. apply serializeSignature_eq; auto; lia.
  - rewrite Z.min_r by lia. apply serializeSignature_eq; auto; try lia.
    apply hex32_value. lia.
Qed.

(** Witness: [r = 1], [s = n - 1] in 64 hex digits. *)
Lemma toViemSignature_valid_layout_witness :
  toViemSignature {| r := hex32 1; s := hex32 (curveOrder - 1); v := 28 |} =
  Some (serialized_layout 1 (Z.min (curveOrder - 1) (curveOrder - (curveOrder - 1))) 28).
Proof.
  apply (toViemSignature_valid_layout {| r := hex32 1; s := hex32 (curveOrder - 1); v := 28 |});
    vm_compute; reflexivity.
Defined.

(** [isValidSignature] accepts a component with a minus sign (a decimal
    [BigInt] below zero is neither [0n] nor [>= curveOrder]); on such a
    signature [toViemSignature] throws. *)
Theorem isValidSignature_negative_r (c : SignatureComponents) rv :
  isValidSignature c = true -> BigInt_of_string c.(r) = Some rv -> rv < 0 ->
  toViemSignature c = None.
Proof.
  intros Hval Hr Hneg.
  destruct (normalizeS_valid_cases c Hval) as (sv & _ & _ & _ & [[_ Hn]|[_ Hn]]);
    unfold toViemSignature; rewrite Hn; unfold serializeSignature; cbn [r s v];
    rewrite Hr;
    lazymatch goal with |- context [BigInt_of_string ?X] => destruct (BigInt_of_string X) end;
    try reflexivity;
    unfold ox_signature_toHex; replace (rv <? 0) with true by (symmetry; apply Z.ltb_lt; lia);
    reflexivity.
Qed.

(** Witness: [r = "-" ++ 64 zeros ++ "1"] (66 characters, the value -1)
    passes [isValidSignature]. *)
Lemma isValidSignature_negative_r_witness :
  let c := {| r := "-" ++ zeros 64 ++ "1"; s := hex32 5; v := 27 |} in
  isValidSignature c = true /\ toViemSignature c = None.
Proof.
  intro c. split; [vm_compute; reflexivity|].
  apply (isValidSignature_negative_r c (-1)); vm_compute; reflexivity.
Defined.

(** Signing composes [normalizeV] with [serializeSignature]: whatever
    encoding of the recovery parity [p] the device returns ([p],
    [27 + p] or the EIP-155 [2 * chainId + 35 + p]), the serialised
    signature is the one for [v = 27 + p]. *)
Theorem serializeSignature_normalizeV_parity r0 s0 p v0 :
  (p = 0 \/ p = 1) ->
  (v0 = p \/ v0 = 27 + p \/ exists chain, 0 <= chain /\ v0 = 2 * chain + 35 + p) ->
  serializeSignature {| r := r0; s := s0; v := normalizeV v0 |} =
  serializeSignature {| r := r0; s := s0; v := 27 + p |}.
Proof.
  intros Hp Hv. apply serializeSignature_parity.
  destruct Hv as [-> | [-> | (chain & Hc & ->)]].
  - destruct Hp as [-> | ->]; reflexivity.
  - destruct Hp as [-> | ->]; reflexivity.
  - unfold normalizeV.
    replace ((2 * chain + 35 + p =? 0) || (2 * chain + 35 + p =? 1)) with false
      by (symmetry; apply orb_false_iff; split; apply Z.eqb_neq; lia).
    replace ((2 * chain + 35 + p =? 27) || (2 * chain + 35 + p =? 28)) with false
      by (symmetry; apply orb_false_iff; split; apply Z.eqb_neq; lia).
    replace (2 * chain + 35 + p >=? 35) with true
      by (symmetry; rewrite Z.geb_leb; apply Z.leb_le; lia).
    replace (2 * chain + 35 + p =? 28) with false by (symmetry; apply Z.eqb_neq; lia).
    rewrite Z.rem_mod_nonneg by lia.
    destruct Hp as [-> | ->].
    + replace ((2 * chain + 35 + 0) mod 2) with 1
        by (apply Z.mod_unique with (q := chain + 17); lia).
      reflexivity.
    + replace ((2 * chain + 35 + 1) mod 2) with 0
        by (apply Z.mod_unique with (q := chain + 18); lia).
      reflexivity.
Qed.

(** Witness: chain id 1, parity 0 ([v = 37]). *)
Lemma serializeSignature_normalizeV_parity_witness :
  serializeSignature {| r := hex32 1; s := hex32 2; v := normalizeV 37 |} =
  serializeSignature {| r := hex32 1; s := hex32 2; v := 27 + 0 |}.
Proof.
  apply serializeSignature_normalizeV_parity; [left; reflexivity|].
  right; right. exists 1. split; [lia | reflexivity].
Defined.

End SigExtra.

(* ================================================================== *)
(** * Test keys *)

Module TestKeysExtra.
Import TestKeys.

Lemma toInt32_shift x : exists k, toInt32 x = x + k * 2 ^ 32.
Proof.
  unfold toInt32. pose proof (Z.mod_eq x (2 ^ 32) ltac:(lia)) as Hm.
  destruct (x mod 2 ^ 32 >=? 2 ^ 31).
  - exists (- (x / 2 ^ 32) - 1). lia.
  - exists (- (x / 2 ^ 32)). lia.
Qed.

Lemma toInt32_add_mult x k : toInt32 (x + k * 2 ^ 32) = toInt32 x.
Proof. unfold toInt32. now rewrite Z.mod_add by lia. Qed.

Lemma toInt32_range x : - 2 ^ 31 <= toInt32 x < 2 ^ 31.
Proof.
  unfold toInt32. pose proof (Z.mod_pos_bound x (2 ^ 32) ltac:(lia)).
  destruct (Z.geb_spec (x mod 2 ^ 32) (2 ^ 31)); lia.
Qed.

Lemma simpleHash_loop_poly s : forall H,
  simpleHash_loop (toInt32 H) s = toInt32 (poly31 H s).
Proof.
  induction s as [|c s IH]; intro H; [reflexivity|].
  cbn [simpleHash_loop poly31]. rewrite <- IH. f_equal.
  destruct (toInt32_shift (toInt32 (toInt32 H) * 2 ^ 5)) as [e He]. rewrite He.
  destruct (toInt32_shift (toInt32 H)) as [b Hb]. rewrite Hb.
  destruct (toInt32_shift H) as [a Ha]. rewrite Ha.
  replace ((H + a * 2 ^ 32 + b * 2 ^ 32) * 2 ^ 5 + e * 2 ^ 32 - (H + a * 2 ^ 32) +
           Z.of_nat (nat_of_ascii c))
    with (H * 31 + Z.of_nat (nat_of_ascii c) + (31 * a + 32 * b + e) * 2 ^ 32) by ring.
  apply toInt32_add_mult.
Qed.


(** [simpleHash] is Java's [String.hashCode]: the exact recurrence
    [h * 31 + char] reduced to a signed 32-bit integer. *)
Theorem simpleHash_is_hashCode (str : string) :
  simpleHash str = toInt32 (poly31 0 str) /\ - 2 ^ 31 <= simpleHash str < 2 ^ 31.
Proof.
  assert (E : simpleHash str = toInt32 (poly31 0 str))
    by exact (simpleHash_loop_poly str 0).
  split; [exact E|]. rewrite E. apply toInt32_range.
Qed.



End TestKeysExtra.

(* ================================================================== *)
(** * Path helpers *)

Module PathApiFacts.
Import Js JsFacts PathFacts DigitFacts Path PathApi.

Lemma all_dec_digits_forall s : all_dec_digits s = forall_chars is_dec_digit s.
Proof. induction s as [|c s IH]; simpl; [reflexivity | now rewrite IH]. Qed.

Lemma prefix_value_nonneg s : forall acc, 0 <= acc -> 0 <= prefix_value 10 acc s.
Proof.
  induction s as [|c s IH]; intros acc Hacc; simpl; [exact Hacc|].
  destruct (digit_val 10 c) as [d|] eqn:Hd; [|exact Hacc].
  apply digit_val_range in Hd. apply IH. lia.
Qed.

Lemma digits_no_slash i : no_slash (to_radix 10 i) = true.
Proof.
  apply forall_chars_impl with (p := is_dec_digit); [|apply to_radix_dec_digits].
  intros c Hc. destruct (Ascii.eqb_spec c "/") as [->|]; [discriminate | reflexivity].
Qed.

Lemma digits_no_quote i : forall_chars (fun c => negb (Ascii.eqb "'" c)) (to_radix 10 i) = true.
Proof.
  apply forall_chars_impl with (p := is_dec_digit); [|apply to_radix_dec_digits].
  intros c Hc. destruct (Ascii.eqb_spec "'" c) as [<-|]; [discriminate | reflexivity].
Qed.



Lemma re_digits_to_radix i : re_digits (to_radix 10 i) = true.
Proof.
  destruct (to_radix_nonempty 10 i) as (c & r & E). unfold re_digits. rewrite E, <- E.
  rewrite all_dec_digits_forall. apply to_radix_dec_digits.
Qed.

Lemma part_ok_index i : 0 <= i -> part_ok (to_radix 10 i) = (i <=? 2147483647).
Proof.
  intro Hi. unfold part_ok. rewrite endsWith_quote_false by apply digits_no_quote.
  rewrite re_digits_to_radix, parseInt_to_radix by exact Hi. cbn [andb].
  replace (i <? 0) with false by (symmetry; apply Z.ltb_ge; lia).
  rewrite Z.gtb_ltb. destruct (Z.leb_spec i 2147483647), (Z.ltb_spec 2147483647 i);
    reflexivity || lia.
Qed.





Lemma startsWith_root_app rest : startsWith ("m/" ++ rest) "m/" = true.
Proof. destruct rest; reflexivity. Qed.

Lemma part_ok_empty : part_ok "" = false.
Proof. reflexivity. Qed.

Lemma isValidPath_extend base t :
  startsWith base "m/" = true -> no_slash t = true ->
  isValidPath (base ++ "/" ++ t) = isValidPath base && part_ok t.
Proof.
  intros Hs Ht. destruct (startsWith_root _ Hs) as [rest ->].
  unfold isValidPath.
  change (String "m" (String "/" rest) ++ "/" ++ t) with ("m/" ++ (rest ++ String "/" t)).
  change (String "m" (String "/" rest)) with ("m/" ++ rest).
  rewrite !startsWith_root_app. cbn [negb].
  change (slice_from 2 ("m/" ++ ?x)) with x.
  rewrite split_app_sep by exact Ht.
  pose proof (split_nonempty "/" rest) as Hne.
  destruct (split "/" rest) as [|p0 ps] eqn:E; [contradiction|].
  cbn [app].
  replace (match p0 :: ps ++ [t] with
           | [] => false | [""] => false | _ => forallb part_ok (p0 :: ps ++ [t]) end)
    with (forallb part_ok (p0 :: ps ++ [t]))
    by (destruct ps; destruct p0 as [|c0 p0]; reflexivity).
  rewrite app_comm_cons, forallb_app. cbn [forallb]. rewrite andb_true_r.
  destruct ps as [|p1 ps]; [|destruct p0; reflexivity].
  destruct p0 as [|c0 p0]; [|reflexivity].
  rewrite part_ok_empty. reflexivity.
Qed.


(** [buildPath] on an integral index. *)
Lemma buildPath_eq base i :
  buildPath base (NInt i) =
  if isValidPath base && (0 <=? i) && (i <=? 2147483647)
  then Some (base ++ "/" ++ to_radix 10 i) else None.
Proof.
  unfold buildPath.
  destruct (startsWith base "m/") eqn:Hs.
  2:{ replace (isValidPath base) with false; [reflexivity|].
      unfold isValidPath. now rewrite Hs. }
  cbn [negb]. unfold int_to_string.
  destruct (Z.ltb_spec i 0) as [Hi|Hi].
  - replace (0 <=? i) with false by (symmetry; apply Z.leb_gt; lia).
    now rewrite andb_false_r.
  - replace (0 <=? i) with true by (symmetry; apply Z.leb_le; lia).
    rewrite andb_true_r.
    rewrite isValidPath_extend by (exact Hs || apply digits_no_slash).
    rewrite part_ok_index by exact Hi.
    destruct (isValidPath base && (i <=? 2147483647)); reflexivity.
Qed.

(** A part accepted by [isValidPath] parses to an index in [0, 2^31 - 1]. *)
Lemma part_ok_parse part : part_ok part = true ->
  exists n, 0 <= n <= 2147483647 /\
    parse_part part = {| index := Some n; hardened := endsWith_char part "'" |}.
Proof.
  unfold part_ok, parse_part. cbv zeta.
  remember (if endsWith_char part "'" then drop_last part else part) as numStr eqn:En.
  intro H. apply andb_prop in H as [Hre Hb].
  unfold re_digits in Hre. destruct numStr as [|c r]; [discriminate|].
  rewrite all_dec_digits_forall in Hre. cbn [forall_chars] in Hre.
  apply andb_prop in Hre as [Hc _].
  rewrite parseInt_dec in * by exact Hc.
  exists (prefix_value 10 0 (String c r)).
  pose proof (prefix_value_nonneg (String c r) 0 ltac:(lia)).
  split; [|reflexivity].
  apply negb_true_iff, orb_false_iff in Hb as [_ Hb].
  rewrite Z.gtb_ltb in Hb. apply Z.ltb_ge in Hb. lia.
Qed.

Lemma ledger_parts parts : forallb part_ok parts = true ->
  exists ks, map ledger_code (map parse_part parts) = map Some ks /\
    Forall (fun k => 0 <= k < 2 ^ 32) ks /\
    map parse_part parts = map ledger_decode ks.
Proof.
  induction parts as [|part parts IH]; intro H; [exists []; repeat constructor|].
  cbn [forallb] in H. apply andb_prop in H as [Hp Hps].
  destruct (IH Hps) as (ks & H1 & H2 & H3).
  destruct (part_ok_parse part Hp) as (n & Hn & Epp).
  exists ((if endsWith_char part "'" then n + 0x80000000 else n) :: ks).
  cbn [map]. rewrite Epp, H1, H3. unfold ledger_code, ledger_decode. cbn [index hardened].
  split; [|split].
  - destruct (endsWith_char part "'"); reflexivity.
  - constructor; [|exact H2]. destruct (endsWith_char part "'"); lia.
  - destruct (endsWith_char part "'").
    + replace ((n + 2147483648) mod 2 ^ 31) with n
        by (apply Z.mod_unique with 1; lia).
      replace (2 ^ 31 <=? n + 2147483648) with true by (symmetry; apply Z.leb_le; lia).
      reflexivity.
    + rewrite Z.mod_small by lia.
      replace (2 ^ 31 <=? n) with false by (symmetry; apply Z.leb_gt; lia).
      reflexivity.
Qed.






End PathApiFacts.

Module PathExtra.
Import Js JsFacts PathFacts DigitFacts Path PathApi PathApiFacts.

(** [buildPath] on an integral index returns [base/index] exactly when the
    base is a valid path and the index lies in [0, 2^31 - 1]; otherwise it
    throws. *)
Theorem buildPath_domain base i :
  buildPath base (NInt i) =
  if isValidPath base && (0 <=? i) && (i <=? 2147483647)
  then Some (base ++ "/" ++ to_radix 10 i) else None.
Proof. apply buildPath_eq. Qed.

(** [pathToLedgerFormat] on a valid path yields one number per segment, each
    in [0, 2^32); the number decodes back to the parsed segment: the index
    is its remainder mod 2^31 and the segment is hardened iff the number is
    at least 2^31. *)
Theorem pathToLedgerFormat_decode p : isValidPath p = true ->
  exists ks, pathToLedgerFormat p = Some (map Some ks) /\
    Forall (fun k => 0 <= k < 2 ^ 32) ks /\
    parsePath p = Some (map ledger_decode ks).
Proof.
  intro Hv. unfold pathToLedgerFormat, parsePath. rewrite Hv. cbn [negb].
  unfold isValidPath in Hv.
  destruct (startsWith p "m/"); [|discriminate]. cbn [negb] in Hv.
  assert (Hall : forallb part_ok (split "/" (slice_from 2 p)) = true).
  { destruct (split "/" (slice_from 2 p)) as [|p0 [|p1 ps]]; try discriminate;
      destruct p0; first [discriminate | exact Hv]. }
  destruct (ledger_parts _ Hall) as (ks & H1 & H2 & H3).
  exists ks. split; [|split; [exact H2 | now rewrite H3]].
  rewrite <- H1. reflexivity.
Qed.



Lemma pathToLedgerFormat_decode_witness :
  isValidPath "m/44'/60'/0'/0/5" = true /\
  exists ks, pathToLedgerFormat "m/44'/60'/0'/0/5" = Some (map Some ks) /\
    Forall (fun k => 0 <= k < 2 ^ 32) ks /\
    parsePath "m/44'/60'/0'/0/5" = Some (map ledger_decode ks).
Proof.
  assert (H : isValidPath "m/44'/60'/0'/0/5" = true) by (vm_compute; reflexivity).
  split; [exact H | apply (pathToLedgerFormat_decode _ H)].
Defined.



End PathExtra.

(* ================================================================== *)
(** * The Ledger device manager across calls *)

Module DeviceExtraFacts.
Import Errors Device DeviceApi.

Lemma verifyAddress_manager vr ar p m :
  fst (fst (verifyAddress vr ar p m)) =
  if m.(ethApp) then m else fst (fst (connect vr m)).
Proof.
  unfold verifyAddress. destruct (ethApp m) eqn:He; cbn [negb].
  - rewrite He. destruct (Path.isValidPath p), ar; reflexivity.
  - destruct (connect vr m) as [[m1 n1] [|o]]; cbn [fst];
      [destruct (ethApp m1), (Path.isValidPath p), ar|]; reflexivity.
Qed.

Lemma step_inv m o :
  m.(transport) = m.(ethApp) -> state_eqb m.(state) connected = m.(transport) ->
  m.(state) <> connecting ->
  (step m o).(transport) = (step m o).(ethApp) /\
  state_eqb (step m o).(state) connected = (step m o).(transport) /\
  (step m o).(state) <> connecting.
Proof.
  destruct m as [t e st ls]; cbn [transport ethApp state]. intros <- Hc Hn.
  assert (Hconn : forall vr, let m' := fst (fst (connect vr {| transport := t; ethApp := t;
                                                              state := st; listeners := ls |})) in
            m'.(transport) = m'.(ethApp) /\ state_eqb m'.(state) connected = m'.(transport) /\
            m'.(state) <> connecting).
  { intro vr. unfold connect. cbn [transport state].
    destruct (state_eqb st connected && t) eqn:E; [cbn; auto|].
    destruct vr; cbn; repeat split; discriminate. }
  destruct o as [vr| |l|l|cr|vr ar p]; cbn [step].
  - apply Hconn.
  - cbn. repeat split; discriminate.
  - cbn. auto.
  - cbn. auto.
  - auto.
  - rewrite verifyAddress_manager. cbn [ethApp]. destruct t; [auto | apply Hconn].
Qed.

Lemma run_inv_from ops m :
  m.(transport) = m.(ethApp) -> state_eqb m.(state) connected = m.(transport) ->
  m.(state) <> connecting ->
  let m' := fold_left step ops m in
  m'.(transport) = m'.(ethApp) /\ state_eqb m'.(state) connected = m'.(transport) /\
  m'.(state) <> connecting.
Proof.
  revert m. induction ops as [|o ops IH]; intros m H1 H2 H3; [auto|].
  cbn [fold_left]. destruct (step_inv m o H1 H2 H3) as (H1' & H2' & H3').
  now apply IH.
Qed.

Lemma run_inv ops :
  (run ops).(transport) = (run ops).(ethApp) /\
  state_eqb (run ops).(state) connected = (run ops).(transport) /\
  (run ops).(state) <> connecting.
Proof. apply run_inv_from; [reflexivity | reflexivity | discriminate]. Qed.

Lemma filter_notifications (l : listener) (f : listener -> notification) Ls :
  (forall l', (f l').(who) = l') ->
  filter (fun x => negb (Nat.eqb l x.(who))) (map f Ls) =
  map f (filter (fun l' => negb (Nat.eqb l l')) Ls).
Proof.
  intro Hw. induction Ls as [|l' Ls IH]; [reflexivity|].
  cbn [map filter]. rewrite Hw, IH. destruct (negb (Nat.eqb l l')); reflexivity.
Qed.

End DeviceExtraFacts.

Module DeviceExtra.
Import Errors Device DeviceApi DeviceExtraFacts.

(** After any sequence of awaited calls on a new manager, the transport and
    the Eth app are held together, [isConnected()] is exactly "the Eth app
    is loaded", and the state is never left at ['connecting']. *)
Theorem reachable_manager_invariant ops :
  (run ops).(transport) = (run ops).(ethApp) /\
  isConnected (run ops) = (run ops).(ethApp) /\
  (run ops).(state) <> connecting.
Proof.
  destruct (run_inv ops) as (H1 & H2 & H3). unfold isConnected.
  rewrite H2, andb_diag. auto.
Qed.

(** On a manager reached by awaited calls that is not connected,
    [getAppConfig()] rejects with [AppNotOpenError] naming the 'ledger' app,
    without calling the device. *)
Theorem getAppConfig_not_connected ops cr :
  isConnected (run ops) = false ->
  getAppConfig cr (run ops) = AppConfigRejected (Returns (AppNotOpenError_for "ledger")).
Proof.
  intro H. destruct (run_inv ops) as (H1 & H2 & _).
  unfold isConnected in H. rewrite H2, andb_diag, H1 in H.
  unfold getAppConfig. now rewrite H.
Qed.

(** A configuration [getAppConfig()] resolves with always has a truthy
    version and [supportsEIP712 = true]; [flags] is 1 with a truthy
    [blindSigningEnabled], or 0 with [blindSigningEnabled = false]. *)
Theorem getAppConfig_shape cr m c :
  getAppConfig cr m = AppConfig c ->
  m.(ethApp) = true /\ truthy c.(version) = true /\ c.(supportsEIP712) = true /\
  ((c.(flags) = 1 /\ truthy c.(blindSigningEnabled) = true) \/
   (c.(flags) = 0 /\ c.(blindSigningEnabled) = JBool false)).
Proof.
  unfold getAppConfig. destruct (ethApp m); [|discriminate]. cbn [negb].
  destruct cr as [ver ade|f]; [|discriminate].
  intro H. injection H as <-. cbn. split; [reflexivity|].
  split; [unfold js_or; destruct (truthy ver) eqn:E; [exact E | reflexivity]|].
  split; [reflexivity|].
  unfold js_or. destruct (truthy ade) eqn:E; [left; auto | right; auto].
Qed.


(** Once [connect()] has resolved, a further [connect()] returns at once,
    whatever the device would do: no listener call, no change. *)
Theorem connect_idempotent vr vr' m m' ns :
  connect vr m = (m', ns, Resolved) -> connect vr' m' = (m', [], Resolved).
Proof.
  unfold connect at 1. destruct (state_eqb (state m) connected && transport m) eqn:E.
  - intro H. injection H as <- _. unfold connect. now rewrite E.
  - destruct vr; cbn; intro H; injection H as <- _; [reflexivity | discriminate].
Qed.

(** Unsubscribing right after subscribing leaves the listener set as it
    was without the listener, and subscribing twice is subscribing once. *)
Theorem subscription_roundtrip l m :
  unsubscribe l (onStateChange l m) = unsubscribe l m /\
  onStateChange l (onStateChange l m) = onStateChange l m.
Proof.
  destruct m as [t e st ls]. unfold unsubscribe, onStateChange. cbn.
  destruct (existsb (Nat.eqb l) ls) eqn:E; split; rewrite ?E; try reflexivity.
  - rewrite filter_app. cbn. rewrite Nat.eqb_refl. cbn. now rewrite app_nil_r.
  - rewrite existsb_app. cbn. rewrite Nat.eqb_refl, orb_true_r. reflexivity.
Qed.

(** An unsubscribed listener takes no part in [connect()] or
    [disconnect()]: they behave as before, with that listener's calls
    removed. *)
Theorem unsubscribe_silences l vr m :
  (let '(m1, n1, r1) := connect vr (unsubscribe l m) in
   let '(m2, n2, r2) := connect vr m in
   m1 = unsubscribe l m2 /\ n1 = filter (fun x => negb (Nat.eqb l x.(who))) n2 /\ r1 = r2) /\
  (let '(m1, n1) := disconnect (unsubscribe l m) in
   let '(m2, n2) := disconnect m in
   m1 = unsubscribe l m2 /\ n1 = filter (fun x => negb (Nat.eqb l x.(who))) n2).
Proof.
  destruct m as [t e st ls]. split.
  - unfold connect, unsubscribe. cbn [transport state ethApp listeners].
    destruct (state_eqb st connected && t); [cbn; auto|].
    destruct vr; cbn; (split; [reflexivity | split; [|reflexivity]]);
      rewrite filter_app, !filter_notifications by reflexivity; reflexivity.
  - unfold disconnect, unsubscribe, setState. cbn.
    split; [reflexivity|]. now rewrite filter_notifications.
Qed.

Lemma getAppConfig_not_connected_witness :
  isConnected (run [OpConnect (VendorFails JNull)]) = false /\
  getAppConfig (ConfigOk (JStr "1.0.0") (JBool true)) (run [OpConnect (VendorFails JNull)]) =
  AppConfigRejected (Returns (AppNotOpenError_for "ledger")).
Proof.
  split; [reflexivity|]. apply getAppConfig_not_connected. reflexivity.
Defined.

Lemma getAppConfig_shape_witness :
  exists c, getAppConfig (ConfigOk JUndefined (JNum 0)) (run [OpConnect VendorOk]) = AppConfig c /\
  (ethApp (run [OpConnect VendorOk]) = true /\ truthy c.(version) = true /\
   c.(supportsEIP712) = true /\
   ((c.(flags) = 1 /\ truthy c.(blindSigningEnabled) = true) \/
    (c.(flags) = 0 /\ c.(blindSigningEnabled) = JBool false))).
Proof.
  eexists. split; [reflexivity|]. apply getAppConfig_shape with (cr := ConfigOk JUndefined (JNum 0)).
  reflexivity.
Defined.


Lemma connect_idempotent_witness :
  connect VendorOk (run [OpSubscribe 1%nat]) =
    (fst (fst (connect VendorOk (run [OpSubscribe 1%nat]))),
     snd (fst (connect VendorOk (run [OpSubscribe 1%nat]))), Resolved) /\
  connect (VendorFails JNull) (fst (fst (connect VendorOk (run [OpSubscribe 1%nat])))) =
    (fst (fst (connect VendorOk (run [OpSubscribe 1%nat]))), [], Resolved).
Proof.
  assert (H : connect VendorOk (run [OpSubscribe 1%nat]) =
    (fst (fst (connect VendorOk (run [OpSubscribe 1%nat]))),
     snd (fst (connect VendorOk (run [OpSubscribe 1%nat]))), Resolved)) by reflexivity.
  split; [exact H | exact (connect_idempotent _ (VendorFails JNull) _ _ _ H)].
Defined.

End DeviceExtra.

(* ================================================================== *)
(** * The error classifiers: codes and fault shapes *)

Module ErrorExtraFacts.
Import Js Errors.

Lemma ledger_heuristics_code s n :
  In (ledger_heuristics s n).(code)
     ["USER_REJECTED"; "DEVICE_LOCKED"; "DEVICE_NOT_FOUND"; "APP_NOT_OPEN"; "UNKNOWN_ERROR"].
Proof.
  unfold ledger_heuristics.
  repeat match goal with |- context [if ?b then _ else _] => destruct b end; cbn; tauto.
Qed.

Lemma trezor_heuristics_code s :
  In (trezor_heuristics s).(code)
     ["USER_REJECTED"; "DEVICE_LOCKED"; "DEVICE_NOT_FOUND"; "UNKNOWN_ERROR"].
Proof.
  unfold trezor_heuristics.
  repeat match goal with |- context [if ?b then _ else _] => destruct b end; cbn; tauto.
Qed.

Ltac split_gets H :=
  repeat match type of H with
  | context [get ?y ?k] => destruct (get y k)
  end.

Ltac split_ifs H :=
  repeat match type of H with
  | context [if ?b then _ else _] => destruct b
  end.

End ErrorExtraFacts.

Module ErrorExtra.
Import Js Errors ErrorExtraFacts.

(** Apart from passing an already classified error through, the two
    classifiers only ever return errors with a code of a fixed set: eight
    codes for Ledger, five for Trezor. *)
Theorem classifier_codes x e :
  (forall e0, x <> JHwErr e0) ->
  (mapLedgerError x = Returns e ->
   In e.(code) ["USER_REJECTED"; "INVALID_DATA"; "WRONG_PARAMETER"; "UNSUPPORTED_OPERATION";
                "DEVICE_LOCKED"; "DEVICE_NOT_FOUND"; "APP_NOT_OPEN"; "UNKNOWN_ERROR"]) /\
  (mapTrezorError x = Returns e ->
   In e.(code) ["USER_REJECTED"; "DEVICE_BUSY"; "DEVICE_LOCKED"; "DEVICE_NOT_FOUND";
                "UNKNOWN_ERROR"]).
Proof.
  intro Hx. destruct x; try (exfalso; eapply Hx; reflexivity).
  all: split; intro H; [unfold mapLedgerError in H | unfold mapTrezorError in H];
    split_gets H; try discriminate; cbv beta zeta in H; split_ifs H;
    try (injection H as <-; cbn; tauto).
  all: match type of H with
       | context [match ?v with JStr _ => _ | _ => _ end] => destruct v
       end; try discriminate; injection H as <-.
  all: lazymatch goal with
       | |- context [ledger_heuristics ?s ?n] => pose proof (ledger_heuristics_code s n) as Hc
       | |- context [trezor_heuristics ?s] => pose proof (trezor_heuristics_code s) as Hc
       end;
    cbn in Hc |- *; tauto.
Qed.



Lemma classifier_codes_witness :
  (forall e0, JObj [("statusCode", JNum 0x6a80)] <> JHwErr e0) /\
  (mapLedgerError (JObj [("statusCode", JNum 0x6a80)]) =
     Returns (plain_error "Invalid data: [object Object]" "INVALID_DATA") ->
   In (plain_error "Invalid data: [object Object]" "INVALID_DATA").(code)
      ["USER_REJECTED"; "INVALID_DATA"; "WRONG_PARAMETER"; "UNSUPPORTED_OPERATION";
       "DEVICE_LOCKED"; "DEVICE_NOT_FOUND"; "APP_NOT_OPEN"; "UNKNOWN_ERROR"]).
Proof.
  assert (Hx : forall e0, JObj [("statusCode", JNum 0x6a80)] <> JHwErr e0) by discriminate.
  split; [exact Hx | exact (proj1 (classifier_codes _ _ Hx))].
Defined.



End ErrorExtra.

(* ================================================================== *)
(** * Integer fields and transactions for the Ledger *)

Module LedgerTxFacts.
Import Js JsFacts Sig SigFacts Rlp LedgerTx DigitFacts.

Lemma strip_nonzero c r : c <> "0"%char -> strip_leading_zeros (String c r) = String c r.
Proof.
  intro Hc. destruct c as [[] [] [] [] [] [] [] []]; try reflexivity.
  exfalso. now apply Hc.
Qed.

(** The digits [toRlpHex] puts after [0x] for a positive value. *)
Lemma toRlpHex_pos v : 0 < v ->
  toRlpHex v = Some ("0x" ++ ((if Nat.odd (String.length (to_radix 16 v)) then "0" else "") ++
                              to_radix 16 v)).
Proof.
  intro Hv. unfold toRlpHex, fromNumber.
  replace (v =? 0) with false by (symmetry; apply Z.eqb_neq; lia).
  replace (v <? 0) with false by (symmetry; apply Z.ltb_ge; lia).
  change (slice_from 2 ("0x" ++ ?x)) with x.
  destruct (to_radix_first 16 v ltac:(lia) Hv) as (c & rest & E & Hc).
  rewrite E, strip_nonzero by exact Hc. reflexivity.
Qed.

Lemma pad_even (t : string) :
  Nat.even (String.length ((if Nat.odd (String.length t) then "0" else "") ++ t)) = true.
Proof.
  unfold Nat.odd. destruct (Nat.even (String.length t)) eqn:E; cbn [negb].
  - exact E.
  - cbn [String.append String.length]. rewrite Nat.even_succ. unfold Nat.odd. now rewrite E.
Qed.

Lemma pad_value v : 0 <= v ->
  digits_value 16 0 ((if Nat.odd (String.length (to_radix 16 v)) then "0" else "") ++
                     to_radix 16 v) = Some v.
Proof.
  intro Hv. destruct (Nat.odd _).
  - change ("0" ++ to_radix 16 v) with (zeros 1 ++ to_radix 16 v).
    rewrite digits_value_zeros by lia. apply to_radix_value; lia.
  - apply to_radix_value; lia.
Qed.

Lemma pad_no_ws v :
  forall_chars (fun c => negb (is_ws c))
    ((if Nat.odd (String.length (to_radix 16 v)) then "0" else "") ++ to_radix 16 v) = true.
Proof.
  rewrite forall_chars_app, hex_digits_no_ws, andb_true_r.
  destruct (Nat.odd _); reflexivity.
Qed.

Lemma pad_no_zero_byte v : 0 < v ->
  startsWith ((if Nat.odd (String.length (to_radix 16 v)) then "0" else "") ++
              to_radix 16 v) "00" = false.
Proof.
  intro Hv. destruct (to_radix_first 16 v ltac:(lia) Hv) as (c & rest & E & Hc).
  rewrite E.
  destruct (Nat.odd _); destruct c as [[] [] [] [] [] [] [] []]; try reflexivity;
    exfalso; now apply Hc.
Qed.

Lemma pad_length_bounds v k : 0 < v -> v < 16 ^ Z.of_nat k -> (1 <= k)%nat ->
  (String.length ((if Nat.odd (String.length (to_radix 16 v)) then "0" else "") ++
                  to_radix 16 v) <= k + 1)%nat.
Proof.
  intros Hv Hk H1. pose proof (to_radix_length_bound 16 v k ltac:(lia) ltac:(lia) H1 Hk).
  rewrite str_length_app. destruct (Nat.odd _); cbn [String.length]; lia.
Qed.

(** The RLP string encoding of each value [v < 256], as computed. *)
Lemma small_values v : 1 <= v < 256 ->
  let h := (if Nat.odd (String.length (to_radix 16 v)) then "0" else "") ++ to_radix 16 v in
  rlpEncode (RStr ("0x" ++ h)) =
  (if v <? 128 then "0x" ++ h
   else "0x" ++ to_radix 16 (128 + Z.of_nat (String.length h) / 2) ++ h).
Proof.
  intro Hv.
  assert (Hall : forallb (fun n =>
    let v := Z.of_nat n in
    let h := (if Nat.odd (String.length (to_radix 16 v)) then "0" else "") ++ to_radix 16 v in
    String.eqb (rlpEncode (RStr ("0x" ++ h)))
      (if v <? 128 then "0x" ++ h
       else "0x" ++ to_radix 16 (128 + Z.of_nat (String.length h) / 2) ++ h))
    (seq 1 255) = true) by (vm_compute; reflexivity).
  rewrite forallb_forall in Hall.
  specialize (Hall (Z.to_nat v) ltac:(apply in_seq; lia)).
  rewrite Z2Nat.id in Hall by lia. cbv zeta in Hall |- *.
  now apply String.eqb_eq.
Qed.

Lemma half_to_hex_even x : half_to_hex (2 * x) = to_radix 16 x.
Proof.
  unfold half_to_hex. rewrite Z.odd_mul, Z.mul_comm, Z.div_mul by lia.
  cbn [Z.odd andb]. apply str_app_nil_r.
Qed.

Lemma half_to_hex_odd x2 : Z.odd x2 = true -> includes (half_to_hex x2) ".8" = true.
Proof.
  intro H. unfold half_to_hex. rewrite H. apply includes_app_r.
  rewrite <- (str_app_nil_r ".8"). apply includes_self.
Qed.

Lemma to_radix16_length3 q : 256 <= q < 4096 -> String.length (to_radix 16 q) = 3%nat.
Proof.
  intro Hq.
  pose proof (to_radix_length_lower 16 q 2 ltac:(lia) ltac:(cbn; lia)).
  pose proof (to_radix_length_bound 16 q 3 ltac:(lia) ltac:(lia) ltac:(lia) ltac:(cbn; lia)).
  lia.
Qed.

(** A hex string whose payload has 512 to 8191 hex digits: the length of
    the length is printed with a half. *)
Lemma rlpEncode_hex_long_half d :
  512 <= Z.of_nat (String.length (slice_from 2 d)) <= 8191 ->
  includes (slice_from 2 (rlpEncode_hex d)) ".8" = true.
Proof.
  intro Hl. unfold rlpEncode_hex.
  set (hex := slice_from 2 d) in *. set (hl := Z.of_nat (String.length hex)).
  assert (H1 : 512 <= hl <= 8191) by (unfold hl; lia).
  replace (hl =? 0) with false by (symmetry; apply Z.eqb_neq; lia).
  replace (hl =? 2) with false by (symmetry; apply Z.eqb_neq; lia).
  replace (hl <=? 110) with false by (symmetry; apply Z.leb_gt; lia).
  cbn [andb]. cbv zeta.
  assert (Hlen : Z.odd (Z.of_nat (String.length (half_to_hex hl))) = true).
  { unfold half_to_hex. rewrite str_length_app, to_radix16_length3.
    - destruct (Z.odd hl); reflexivity.
    - split; [apply Z.div_le_lower_bound | apply Z.div_lt_upper_bound]; lia. }
  change (slice_from 2 ("0x" ++ ?x)) with x.
  apply includes_app_l, half_to_hex_odd.
  set (L := Z.of_nat (String.length (half_to_hex hl))) in *.
  assert (Hm : L mod 2 = 1).
  { rewrite Zmod_odd, Hlen. reflexivity. }
  rewrite Hm. rewrite Z.odd_add, Z.odd_add, Hlen. reflexivity.
Qed.

Lemma all_some_in {A} (xs : list (option A)) ys y :
  all_some xs = Some ys -> In (Some y) xs -> In y ys.
Proof.
  revert ys. induction xs as [|[x|] xs IH]; intros ys H Hin; cbn in *.
  - contradiction.
  - destruct (all_some xs) as [zs|] eqn:E; [|discriminate]. injection H as <-.
    destruct Hin as [Heq|Hin]; [injection Heq as ->; now left | right; now apply IH].
  - discriminate.
Qed.

Lemma rlpEncode_list_includes encs x p :
  In x encs -> includes (slice_from 2 x) p = true ->
  exists Y, rlpEncode_list encs = "0x" ++ Y /\ includes Y p = true.
Proof.
  intros Hin Hx.
  assert (Hc : includes (String.concat "" (map (slice_from 2) encs)) p = true)
    by (apply (includes_concat (slice_from 2 x)); [now apply in_map | exact Hx]).
  unfold rlpEncode_list. cbv zeta.
  destruct (_ <=? 110); eexists; (split; [reflexivity|]);
    rewrite ?str_app_assoc; repeat apply includes_app_r; exact Hc.
Qed.

End LedgerTxFacts.

Module LedgerTxExtra.
Import Js JsFacts PathFacts Sig SigFacts Rlp LedgerTx DigitFacts LedgerTxFacts.

(** [toRlpHex] throws on a negative value; on a positive value it returns
    [0x] and an even number of hex digits without a leading zero byte,
    which [BigInt] reads back as the value. *)
Theorem toRlpHex_spec v :
  (v < 0 -> toRlpHex v = None) /\
  (0 < v -> exists h, toRlpHex v = Some ("0x" ++ h) /\
     Nat.even (String.length h) = true /\
     startsWith h "00" = false /\
     BigInt_of_string ("0x" ++ h) = Some v).
Proof.
  split.
  - intro Hv. unfold toRlpHex, fromNumber.
    replace (v =? 0) with false by (symmetry; apply Z.eqb_neq; lia).
    replace (v <? 0) with true by (symmetry; apply Z.ltb_lt; lia).
    reflexivity.
  - intro Hv. eexists. split; [apply toRlpHex_pos, Hv|].
    split; [apply pad_even|]. split; [apply pad_no_zero_byte, Hv|].
    change ("0x" ++ ?h) with (String "0" (String "x" h)).
    rewrite BigInt_hex_prefix.
    + apply pad_value. lia.
    + destruct (to_radix_nonempty 16 v) as (c & r & E). rewrite E.
      destruct (Nat.odd _); discriminate.
    + apply pad_no_ws.
Qed.

(** An integer field below 2^440 (at most 55 bytes) is RLP-encoded as the
    rule prescribes: 0 as the empty string [0x80], a value below 128 as its
    own byte, any other value as [0x80 + length] followed by its bytes;
    no half is printed. *)
Theorem rlp_integer_field v : 0 <= v < 2 ^ 440 ->
  exists h, toRlpHex v = Some ("0x" ++ h) /\
  rlpEncode (RStr ("0x" ++ h)) =
    (if v =? 0 then "0x80"
     else if v <? 128 then "0x" ++ h
     else "0x" ++ to_radix 16 (128 + Z.of_nat (String.length h) / 2) ++ h).
Proof.
  intro Hv. destruct (Z.eq_dec v 0) as [->|Hv0]; [exists ""; split; reflexivity|].
  eexists. split; [apply toRlpHex_pos; lia|].
  rewrite (proj2 (Z.eqb_neq v 0) Hv0).
  destruct (Z.ltb_spec v 256) as [Hs|Hb]; [apply small_values; lia|].
  replace (v <? 128) with false by (symmetry; apply Z.ltb_ge; lia).
  pose proof (to_radix_length_lower 16 v 2 ltac:(lia) ltac:(cbn; lia)) as Hlo.
  pose proof (pad_length_bounds v 110 ltac:(lia) ltac:(replace (16 ^ Z.of_nat 110) with (2 ^ 440)
    by reflexivity; lia) ltac:(lia)) as Hhi.
  pose proof (pad_even (to_radix 16 v)) as Hev.
  revert Hlo Hhi Hev.
  generalize (to_radix 16 v) as t. intros t Hlo Hhi Hev.
  set (h := (if Nat.odd (String.length t) then "0" else "") ++ t) in *.
  assert (Hh : (3 <= String.length h)%nat)
    by (unfold h; rewrite str_length_app; lia).
  apply Nat.even_spec in Hev as [k Hk].
  cbn [rlpEncode]. rewrite startsWith_self. unfold rlpEncode_hex. cbv zeta.
  change (slice_from 2 ("0x" ++ h)) with h.
  rewrite Hk in *.
  replace (Z.of_nat (2 * k)) with (2 * Z.of_nat k) by lia.
  replace (2 * Z.of_nat k =? 0) with false by (symmetry; apply Z.eqb_neq; lia).
  replace (2 * Z.of_nat k =? 2) with false by (symmetry; apply Z.eqb_neq; lia).
  replace (2 * Z.of_nat k <=? 110) with true by (symmetry; apply Z.leb_le; lia).
  cbn [andb].
  replace (2 * 128 + 2 * Z.of_nat k) with (2 * (128 + Z.of_nat k)) by ring.
  rewrite half_to_hex_even.
  replace (2 * Z.of_nat k / 2) with (Z.of_nat k) by (rewrite Z.mul_comm, Z.div_mul; lia).
  reflexivity.
Qed.

(** A transaction whose [data] has 256 to 4095 bytes (512 to 8191 hex
    digits) is never serialized as valid hex: the output, when there is
    one, contains the half [.8] of the data's length prefix, for a legacy
    and for an EIP-1559 transaction alike. *)
Theorem serialize_long_data_halves tx d out :
  tx.(data) = Some d -> startsWith d "0x" = true ->
  512 <= Z.of_nat (String.length (slice_from 2 d)) <= 8191 ->
  serializeTransactionForLedger tx = Some out -> includes out ".8" = true.
Proof.
  intros Hd Hs Hl.
  assert (Henc : includes (slice_from 2 (rlpEncode (RStr d))) ".8" = true)
    by (cbn [rlpEncode]; rewrite Hs; now apply rlpEncode_hex_long_half).
  unfold serializeTransactionForLedger. rewrite Hd. cbv zeta.
  destruct (maxFeePerGas tx);
    match goal with |- match all_some ?xs with _ => _ end = _ -> _ =>
      destruct (all_some xs) as [fields|] eqn:E end; try discriminate;
    intro H; injection H as <-;
    (assert (Hin : In (RStr d) fields) by (eapply all_some_in; [exact E | cbn [In dflt]; tauto]));
    change (rlpEncode (RList fields)) with (rlpEncode_list (map rlpEncode fields));
    destruct (rlpEncode_list_includes (map rlpEncode fields) (rlpEncode (RStr d)) ".8"
                (in_map _ _ _ Hin) Henc) as (Y & -> & HY).
  - change (slice_from 2 ("0x" ++ Y)) with Y. exact (includes_app_r "0x02" Y ".8" HY).
  - apply includes_app_r. exact HY.
Qed.

Lemma toRlpHex_spec_witness :
  toRlpHex (-5) = None /\
  exists h, toRlpHex 256 = Some ("0x" ++ h) /\ Nat.even (String.length h) = true /\
    startsWith h "00" = false /\ BigInt_of_string ("0x" ++ h) = Some 256.
Proof.
  split; [apply (proj1 (toRlpHex_spec (-5))); lia | apply (proj2 (toRlpHex_spec 256)); lia].
Defined.

Lemma rlp_integer_field_witness :
  exists h, toRlpHex 21000 = Some ("0x" ++ h) /\
  rlpEncode (RStr ("0x" ++ h)) =
    (if 21000 =? 0 then "0x80"
     else if 21000 <? 128 then "0x" ++ h
     else "0x" ++ to_radix 16 (128 + Z.of_nat (String.length h) / 2) ++ h).
Proof. apply rlp_integer_field. lia. Defined.

Lemma serialize_long_data_halves_witness :
  let tx := {| to := None; value := None; nonce := None;
               data := Some ("0x" ++ repeat_str "00" 256); gas := None; gasPrice := None;
               maxFeePerGas := None; maxPriorityFeePerGas := None; chainId := None |} in
  exists out, serializeTransactionForLedger tx = Some out /\ includes out ".8" = true.
Proof.
  intro tx.
  assert (Hs : serializeTransactionForLedger tx = Some (rlpEncode (RList
    [RStr "0x"; RStr "0x"; RStr "0x5208"; RStr "0x"; RStr "0x";
     RStr ("0x" ++ repeat_str "00" 256); RStr "0x01"; RStr "0x"; RStr "0x"])))
    by (vm_compute; reflexivity).
  eexists. split; [exact Hs|].
  apply (serialize_long_data_halves tx ("0x" ++ repeat_str "00" 256) _ eq_refl eq_refl).
  - vm_compute. split; discriminate.
  - exact Hs.
Defined.

End LedgerTxExtra.
